(** * REINFORCE with baseline for the one-asset investment problem

    A shallow embedding of [REINFORCE_BASELINE_PolicyNet5_proof.py]:
    the model constants, the two networks' forward passes, the agent's
    episode buffers, the wealth transition, one training episode
    (rollout followed by [Agent.learn]) and the properties of the
    specification that concern them.

    Python floats are IEEE binary64 numbers.  The program is written
    once over an interface [Scalar] of the arithmetic it uses, and read
    at two instances: [b64], the binary64 operations of the standard
    library's [SpecFloat] (what the interpreter computes), and [Rs],
    the real numbers (what the formulas mean). *)

From Stdlib Require Import ZArith Reals List Bool Lia Lra SpecFloat.
Import ListNotations.

(** ** Scalars *)

(** The arithmetic of Python numbers that the program uses.  [of_Z]
    is the conversion of an [int] operand to [float]; [ffloor] is
    [math.floor], which raises on infinities and NaN ([None]). *)
Class Scalar : Type := {
  num : Type;
  of_Z : Z -> num;
  fadd : num -> num -> num;
  fsub : num -> num -> num;
  fmul : num -> num -> num;
  fdiv : num -> num -> num;
  fneg : num -> num;
  fltb : num -> num -> bool;
  feqb : num -> num -> bool;
  ffloor : num -> option Z
}.

Declare Scope num_scope.
Delimit Scope num_scope with num.
Bind Scope num_scope with num.
Infix "+" := fadd : num_scope.
Infix "-" := fsub : num_scope.
Infix "*" := fmul : num_scope.
Infix "/" := fdiv : num_scope.
Notation "- x" := (fneg x) : num_scope.
Infix "<?" := fltb : num_scope.
Infix "=?" := feqb : num_scope.

(** The functions the program takes from numpy, torch and the C
    library: [np.sqrt], the general case of [**] on floats, and the
    exponential, logarithm and the constant pi behind [F.softplus] and
    [torch.distributions.Normal]. *)
Class Library (F : Scalar) : Type := {
  np_sqrt : num -> num;
  libm_pow : num -> num -> num;
  t_exp : num -> num;
  t_log : num -> num;
  t_pi : num
}.

(** *** Binary64 *)

Module B64.

Definition prec : Z := 53.
Definition emax : Z := 1024.

Definition float : Type := spec_float.

Definition of_Z (z : Z) : float := binary_normalize prec emax z 0 false.

(** [math.floor] on a finite float: the mantissa shifted by the
    exponent, rounded toward minus infinity. *)
Definition floor (x : float) : option Z :=
  match x with
  | S754_zero _ => Some 0%Z
  | S754_finite s m e =>
      let v := if s then Z.neg m else Z.pos m in
      Some (if (0 <=? e)%Z then v * 2 ^ e else v / 2 ^ (- e))%Z
  | S754_infinity _ | S754_nan => None
  end.

End B64.

Definition b64 : Scalar := {|
  num := B64.float;
  of_Z := B64.of_Z;
  fadd := SFadd B64.prec B64.emax;
  fsub := SFsub B64.prec B64.emax;
  fmul := SFmul B64.prec B64.emax;
  fdiv := SFdiv B64.prec B64.emax;
  fneg := SFopp;
  fltb := SFltb;
  feqb := SFeqb;
  ffloor := B64.floor
|}.

(** *** Float32, the type of torch's tensors ([.float()]) *)

Module B32.

Definition prec : Z := 24.
Definition emax : Z := 128.

Definition of_Z (z : Z) : spec_float := binary_normalize prec emax z 0 false.

End B32.

Definition b32 : Scalar := {|
  num := spec_float;
  of_Z := B32.of_Z;
  fadd := SFadd B32.prec B32.emax;
  fsub := SFsub B32.prec B32.emax;
  fmul := SFmul B32.prec B32.emax;
  fdiv := SFdiv B32.prec B32.emax;
  fneg := SFopp;
  fltb := SFltb;
  feqb := SFeqb;
  ffloor := B64.floor
|}.

(** *** Real numbers *)

Module RealScalar.

Definition ltb (x y : R) : bool := if Rlt_dec x y then true else false.
Definition eqb (x y : R) : bool := if Req_dec_T x y then true else false.
Definition floor (x : R) : option Z := Some (Int_part x).

End RealScalar.

Definition Rs : Scalar := {|
  num := R;
  of_Z := IZR;
  fadd := Rplus;
  fsub := Rminus;
  fmul := Rmult;
  fdiv := Rdiv;
  fneg := Ropp;
  fltb := RealScalar.ltb;
  feqb := RealScalar.eqb;
  ffloor := RealScalar.floor
|}.

(** On the reals the library functions are the functions themselves.
    [Rpower x y] is [exp (y * ln x)], the power of a positive base. *)
Definition Rlib : Library Rs :=
  @Build_Library Rs sqrt Rpower exp ln PI.

(** ** Model constants (lines 23-38 of the source) *)

Section Constants.

Context {F : Scalar}.

(** A decimal literal with the value [n/d]: the float nearest to the
    quotient, which is what the division of the two exactly
    represented integers gives. *)
Definition dec (n d : Z) : num := (of_Z n / of_Z d)%num.

Definition zero : num := of_Z 0.
Definition one : num := of_Z 1.

Definition dt : num := (of_Z 1 / of_Z 52)%num.
Definition T : num := (of_Z 2 * dt)%num.
Definition x_0 : num := dec 10 10.
Definition EPOCHS : nat := 5000.

(** [N = math.floor(T/dt)]; [None] when [math.floor] raises. *)
Definition N_steps : option nat := option_map Z.to_nat (ffloor (T / dt)%num).

Definition mu : num := dec 1 10.
Definition sigma : num := dec 1 10.
Definition r : num := dec 2 100.
Definition rho : num := ((mu - r) / sigma)%num.
Definition lam : num := dec 1 1000.
Definition gamma : num := dec 5 10.

(** [true_mean], the function of line 207 (which replaces the number
    bound to the same name at line 38). *)
Definition true_mean (x : num) : num :=
  ((rho * x) / (sigma * (of_Z 1 - gamma)))%num.

End Constants.

(** ** Tensors *)

Section Tensors.

Context {F : Scalar}.

(** Where a tensor attached to a network's graph comes from: the value
    network's output, the two slices of the policy network's output, or
    the log-density of the sampled action [a] under the policy's
    distribution. *)
Inductive origin : Type :=
| OValue
| OMean
| OSd
| OLogProb (a : num).

(** One-element tensors, as expressions.  [Node o x tt v] is an output
    with value [v] of a forward pass on the state [[x, tt]]: it carries
    the graph back to the parameters.  [Lit v] is [torch.Tensor([v])],
    a leaf that requires no gradient.  [Scale c t] is [c * t] for a
    Python number [c], [Plus] is the sum of two tensors and
    [AddInt z t] is [z + t] for a Python [int]. *)
Inductive tensor : Type :=
| Node (o : origin) (x tt v : num)
| Lit (v : num)
| Scale (c : num) (t : tensor)
| Plus (a b : tensor)
| AddInt (z : Z) (t : tensor).

(** [t.item()] *)
Fixpoint item (t : tensor) : num :=
  match t with
  | Node _ _ _ v => v
  | Lit v => v
  | Scale c t' => (c * item t')%num
  | Plus a b => (item a + item b)%num
  | AddInt z t' => (of_Z z + item t')%num
  end.

(** What [t.backward()] sends to the graph: for every attached node
    under [t], the node and the factor its gradient is multiplied by.
    [up] is the factor accumulated so far; [Lit] leaves receive
    nothing. *)
Fixpoint backward (up : num) (t : tensor) : list (tensor * num) :=
  match t with
  | Node _ _ _ _ => [(t, up)]
  | Lit _ => []
  | Scale c t' => backward (up * c)%num t'
  | Plus a b => backward up a ++ backward up b
  | AddInt _ t' => backward up t'
  end.

(** [t.requires_grad]: an output of a network does, [torch.Tensor([v])]
    does not, and the result of an operation does when one of its
    tensor operands does.  [backward()] raises [RuntimeError] on a
    tensor that does not. *)
Fixpoint requires_grad (t : tensor) : bool :=
  match t with
  | Node _ _ _ _ => true
  | Lit _ => false
  | Scale _ t' => requires_grad t'
  | Plus a b => requires_grad a || requires_grad b
  | AddInt _ t' => requires_grad t'
  end.

(** The values of Python variables that start as the [int] 0 and have
    tensors added to them ([val_loss], [policy_loss]). *)
Inductive pyval : Type :=
| PyInt (z : Z)
| PyTensor (t : tensor).

Definition py_add (a b : pyval) : pyval :=
  match a, b with
  | PyInt x, PyInt y => PyInt (x + y)
  | PyInt x, PyTensor t => PyTensor (AddInt x t)
  | PyTensor t, PyInt y => PyTensor (AddInt y t)
  | PyTensor t, PyTensor u => PyTensor (Plus t u)
  end.

End Tensors.

(** ** The networks *)

Section Networks.

Context {F : Scalar} {L : Library F}.

(** [nn.Linear]: one row of weights and one bias per output. *)
Record Linear : Type := {
  weight : list (list num);
  bias : list num
}.

(** The product of one row with the input, summed from the left; the
    order in which torch adds the products is its own. *)
Definition dot (row x : list num) : option num :=
  if (length row =? length x)%nat
  then Some (fold_left (fun acc wx => (acc + fst wx * snd wx)%num)
                       (combine row x) zero)
  else None.

Fixpoint affine (rows : list (list num)) (bs : list num) (x : list num)
  : option (list num) :=
  match rows, bs with
  | [], [] => Some []
  | row :: rows', b :: bs' =>
      match dot row x, affine rows' bs' x with
      | Some d, Some ys => Some ((d + b)%num :: ys)
      | _, _ => None
      end
  | _, _ => None
  end.

(** Applying a layer; [None] is torch's size-mismatch error. *)
Definition apply_linear (l : Linear) (x : list num) : option (list num) :=
  affine (weight l) (bias l) x.

Definition leaky_relu (negative_slope x : num) : num :=
  if (zero <? x)%num then x else (x * negative_slope)%num.

(** [F.softplus] with its defaults [beta = 1], [threshold = 20]:
    [log(1 + exp(x))], and [x] itself above the threshold.  Over the
    reals this is positive; in floating point, which is where torch
    evaluates it, [exp(x)] underflows to 0 for very negative [x] and
    the result is [log(1) = 0]. *)
Definition softplus (x : num) : num :=
  if (of_Z 20 <? x)%num then x else t_log (one + t_exp x)%num.

(** The state of [optim.Adam(self.parameters(), lr = lr)]: the
    learning rate, the number of steps taken, and the running averages
    of the gradients and of their squares, one entry per layer once the
    first step has created them. *)
Record Adam : Type := {
  adam_lr : num;
  adam_steps : nat;
  exp_avg : list Linear;
  exp_avg_sq : list Linear
}.

(** The optimizer as the constructor of a network leaves it. *)
Definition new_adam (lr : num) : Adam :=
  {| adam_lr := lr; adam_steps := 0; exp_avg := []; exp_avg_sq := [] |}.

(** A network object: its three layers and its optimizer
    ([self.optimizer]). *)
Record PolicyNetwork : Type := {
  p_fc1 : Linear;
  p_fc2 : Linear;
  p_fc3 : Linear;
  p_optimizer : Adam
}.

Record ValueFuncNetwork : Type := {
  v_fc1 : Linear;
  v_fc2 : Linear;
  v_fc3 : Linear;
  v_optimizer : Adam
}.

Definition obind {A B : Type} (o : option A) (k : A -> option B) : option B :=
  match o with
  | Some a => k a
  | None => None
  end.

(** [PolicyNetwork.forward]: the first output unchanged, the second
    through softplus; [None] when a layer's sizes do not fit or [fc3]
    has fewer than two outputs. *)
Definition policy_forward (net : PolicyNetwork) (observation : list num)
  : option (num * num) :=
  obind (apply_linear (p_fc1 net) observation) (fun h1 =>
  obind (apply_linear (p_fc2 net) (map (leaky_relu (dec 1 10)) h1)) (fun h2 =>
  obind (apply_linear (p_fc3 net) (map (leaky_relu (dec 1 10)) h2)) (fun x =>
  match x with
  | first_slice :: second_slice :: _ => Some (first_slice, softplus second_slice)
  | _ => None
  end))).

(** [ValueFuncNetwork.forward]; the agent is built with [n_returns = 1]
    and reads the output with [.item()], so any other size is an
    error. *)
Definition value_forward (net : ValueFuncNetwork) (observation : list num)
  : option num :=
  obind (apply_linear (v_fc1 net) observation) (fun h1 =>
  obind (apply_linear (v_fc2 net) (map (leaky_relu (dec 1 100)) h1)) (fun h2 =>
  obind (apply_linear (v_fc3 net) (map (leaky_relu (dec 1 100)) h2)) (fun x =>
  match map (leaky_relu (dec 1 100)) x with
  | [v] => Some v
  | _ => None
  end))).

(** Shapes: [linear_shape n_in n_out l] says that [l] maps [n_in]
    inputs to [n_out] outputs. *)
Definition linear_shape (n_in n_out : nat) (l : Linear) : Prop :=
  length (weight l) = n_out /\ length (bias l) = n_out /\
  Forall (fun row => length row = n_in) (weight l).

(** The shapes [Agent.__init__] builds: two inputs, hidden sizes
    [l1_size] and [l2_size], two outputs for the policy and one for
    the value. *)
Definition policy_shape (l1_size l2_size : nat) (net : PolicyNetwork) : Prop :=
  linear_shape 2 l1_size (p_fc1 net) /\
  linear_shape l1_size l2_size (p_fc2 net) /\
  linear_shape l2_size 2 (p_fc3 net).

Definition value_shape (l1_size l2_size : nat) (net : ValueFuncNetwork) : Prop :=
  linear_shape 2 l1_size (v_fc1 net) /\
  linear_shape l1_size l2_size (v_fc2 net) /\
  linear_shape l2_size 1 (v_fc3 net).

(** [torch.distributions.Normal(loc, scale)]: a sample is
    [loc + scale * eps] for a standard normal [eps]; the log-density
    and the entropy are the library's formulas. *)
Definition normal_sample (loc scale eps : num) : num :=
  (loc + scale * eps)%num.

Definition normal_log_prob (loc scale v : num) : num :=
  (- ((v - loc) * (v - loc)) / (of_Z 2 * (scale * scale))
   - t_log scale - t_log (np_sqrt (of_Z 2 * t_pi)))%num.

Definition normal_entropy (scale : num) : num :=
  (dec 5 10 + dec 5 10 * t_log (of_Z 2 * t_pi) + t_log scale)%num.

(** ** Environment functions (lines 192-210) *)

Definition is_odd_integer (y : num) : bool :=
  match ffloor y with
  | Some z => (of_Z z =? y)%num && Z.odd z
  | None => false
  end.

(** [x ** y] on floats.  The interpreter settles the cases of a zero
    exponent and of a zero base with a positive exponent itself and
    leaves the rest to the C library's [pow]. *)
Definition py_pow (x y : num) : num :=
  if (y =? zero)%num then one
  else if (x =? zero)%num && (zero <? y)%num
       then (if is_odd_integer y then x else zero)
       else libm_pow x y.

Definition util (x : num) : num := py_pow x gamma.

Definition true_value (x t : num) : num :=
  let beta := ((gamma * py_pow rho (of_Z 2)) / (of_Z 2 * (of_Z 1 - gamma)))%num in
  (t_exp (beta * (T - t)) * py_pow x gamma)%num.

End Networks.

(** ** The agent, the random generators and the program state *)

Section Program.

Context {F : Scalar} {L : Library F}.

(** The attributes of [Agent].  [mean], [sd], [reward] and [score]
    do not exist before the method that first assigns them has run. *)
Record Agent : Type := {
  reward_memory : list num;
  action_memory : list tensor;
  value_memory : list tensor;
  mean_memory : list num;
  sd_memory : list num;
  value : ValueFuncNetwork;
  policy : PolicyNetwork;
  mean : option tensor;
  sd : option tensor;
  reward : option num;
  score : option num
}.

(** A seeded generator: the sequence of its draws and how many have
    been taken.  numpy's draws are read as uniform on [0,1) by
    [np.random.uniform] and as standard normal by [np.random.randn];
    torch's draws are standard normal. *)
Record rng : Type := {
  draws : nat -> num;
  pos : nat
}.

Definition next (g : rng) : num * rng :=
  (draws g (pos g), {| draws := draws g; pos := S (pos g) |}).

(** The process state: the agent, the two global generators and the
    run-long histories of the training script. *)
Record World : Type := {
  agent : Agent;
  np_random : rng;
  torch_random : rng;
  episode_scores : list num;
  episode_values : list num
}.

(** *** A state-and-error monad over [World] *)

Definition M (A : Type) : Type := World -> option (A * World).

Definition ret {A : Type} (a : A) : M A := fun w => Some (a, w).

Definition bind {A B : Type} (m : M A) (k : A -> M B) : M B :=
  fun w => match m w with
           | Some (a, w') => k a w'
           | None => None
           end.

Definition raise {A : Type} : M A := fun _ => None.

Definition of_option {A : Type} (o : option A) : M A :=
  match o with
  | Some a => ret a
  | None => raise
  end.

Definition get_agent : M Agent := fun w => Some (agent w, w).

Definition put_agent (a : Agent) : M unit :=
  fun w => Some (tt, {| agent := a; np_random := np_random w;
                        torch_random := torch_random w;
                        episode_scores := episode_scores w;
                        episode_values := episode_values w |}).

Definition np_draw : M num :=
  fun w => let (z, g) := next (np_random w) in
           Some (z, {| agent := agent w; np_random := g;
                       torch_random := torch_random w;
                       episode_scores := episode_scores w;
                       episode_values := episode_values w |}).

Definition torch_draw : M num :=
  fun w => let (z, g) := next (torch_random w) in
           Some (z, {| agent := agent w; np_random := np_random w;
                       torch_random := g;
                       episode_scores := episode_scores w;
                       episode_values := episode_values w |}).

Definition append_episode_values (v : num) : M unit :=
  fun w => Some (tt, {| agent := agent w; np_random := np_random w;
                        torch_random := torch_random w;
                        episode_scores := episode_scores w;
                        episode_values := episode_values w ++ [v] |}).

Definition append_episode_scores (v : num) : M unit :=
  fun w => Some (tt, {| agent := agent w; np_random := np_random w;
                        torch_random := torch_random w;
                        episode_scores := episode_scores w ++ [v];
                        episode_values := episode_values w |}).

End Program.

Declare Scope monad_scope.
Delimit Scope monad_scope with monad.
Notation "x <- m ;; k" := (bind m (fun x => k))
  (at level 61, m at next level, right associativity) : monad_scope.
Notation "m ;; k" := (bind m (fun _ => k))
  (at level 61, right associativity) : monad_scope.

Section Methods.

Context {F : Scalar} {L : Library F}.

(** The number of time steps, the global [N] of the source.  The
    definitions take it as a variable; the program's own value is
    [N_steps]. *)
Variable N : nat.

(** What the two [optimizer.step()] calls of [learn] make of a network
    object, its layers and the state of its Adam optimizer, given the
    loss whose gradients [backward()] has just computed. *)
Variable value_step : tensor -> ValueFuncNetwork -> ValueFuncNetwork.
Variable policy_step : tensor -> PolicyNetwork -> PolicyNetwork.

Local Open Scope monad_scope.

(** *** Methods of [Agent] (lines 108-140) *)

(** [choose_action]: it returns the sampled action and leaves the
    log-probability, the entropy reward and the distribution's
    parameters in the agent. *)
Definition choose_action (current_wealth t : num) : M num :=
  let tt_go := (T - t)%num in
  a <- get_agent ;;
  ms <- of_option (policy_forward (policy a) [current_wealth; tt_go]) ;;
  eps <- torch_draw ;;
  let action := normal_sample (fst ms) (snd ms) eps in
  let log_probs :=
    Node (OLogProb action) current_wealth tt_go
         (normal_log_prob (fst ms) (snd ms) action) in
  put_agent {| reward_memory := reward_memory a;
               action_memory := action_memory a ++ [log_probs];
               value_memory := value_memory a;
               mean_memory := mean_memory a;
               sd_memory := sd_memory a;
               value := value a;
               policy := policy a;
               mean := Some (Node OMean current_wealth tt_go (fst ms));
               sd := Some (Node OSd current_wealth tt_go (snd ms));
               reward := Some (lam * normal_entropy (snd ms))%num;
               score := score a |} ;;
  ret action.

Definition get_value (current_wealth t : num) : M tensor :=
  let tt_go := (T - t)%num in
  a <- get_agent ;;
  v <- of_option (value_forward (value a) [current_wealth; tt_go]) ;;
  ret (Node OValue current_wealth tt_go v).

Definition store_value (v : tensor) : M unit :=
  a <- get_agent ;;
  put_agent {| reward_memory := reward_memory a;
               action_memory := action_memory a;
               value_memory := value_memory a ++ [v];
               mean_memory := mean_memory a;
               sd_memory := sd_memory a;
               value := value a;
               policy := policy a;
               mean := mean a;
               sd := sd a;
               reward := reward a;
               score := score a |}.

Definition store_rewards (x : num) : M unit :=
  a <- get_agent ;;
  put_agent {| reward_memory := reward_memory a ++ [x];
               action_memory := action_memory a;
               value_memory := value_memory a;
               mean_memory := mean_memory a;
               sd_memory := sd_memory a;
               value := value a;
               policy := policy a;
               mean := mean a;
               sd := sd a;
               reward := reward a;
               score := score a |}.

Definition store_means (x : num) : M unit :=
  a <- get_agent ;;
  put_agent {| reward_memory := reward_memory a;
               action_memory := action_memory a;
               value_memory := value_memory a;
               mean_memory := mean_memory a ++ [x];
               sd_memory := sd_memory a;
               value := value a;
               policy := policy a;
               mean := mean a;
               sd := sd a;
               reward := reward a;
               score := score a |}.

Definition store_sds (x : num) : M unit :=
  a <- get_agent ;;
  put_agent {| reward_memory := reward_memory a;
               action_memory := action_memory a;
               value_memory := value_memory a;
               mean_memory := mean_memory a;
               sd_memory := sd_memory a ++ [x];
               value := value a;
               policy := policy a;
               mean := mean a;
               sd := sd a;
               reward := reward a;
               score := score a |}.

(** *** [Agent.learn] (lines 142-189) *)

(** The inner loop of the return computation:
    [for k in range(j, N): R += reward_memory[k+1]], over the list
    [ks] of the values of [k]; [None] is an [IndexError]. *)
Fixpoint accumulate (rm : list num) (ks : list nat) (R : num) : option num :=
  match ks with
  | [] => Some R
  | k :: ks' =>
      match nth_error rm (k + 1) with
      | Some x => accumulate rm ks' (R + x)%num
      | None => None
      end
  end.

(** The outer loop: [for j in range(N): R = 0; ...; G.append(R)]. *)
Fixpoint gains_loop (rm : list num) (js : list nat) (G : list num)
  : option (list num) :=
  match js with
  | [] => Some G
  | j :: js' =>
      match accumulate rm (seq j (N - j)) zero with
      | Some R => gains_loop rm js' (G ++ [R])
      | None => None
      end
  end.

Definition gains (rm : list num) : option (list num) :=
  gains_loop rm (seq 0 N) [].

(** [for j in range(N): deltas.append(G[j] - value_memory[j].item())] *)
Fixpoint deltas_loop (G : list num) (vm : list tensor) (js : list nat)
  (ds : list num) : option (list num) :=
  match js with
  | [] => Some ds
  | j :: js' =>
      match nth_error G j, nth_error vm j with
      | Some g, Some v => deltas_loop G vm js' (ds ++ [(g - item v)%num])
      | _, _ => None
      end
  end.

Definition deltas (G : list num) (vm : list tensor) : option (list num) :=
  deltas_loop G vm (seq 0 N) [].

(** [loss = 0; for d, t in zip(deltas, memory): loss += -d*t] *)
Definition weighted_loss (ds : list num) (memory : list tensor) : pyval :=
  fold_left (fun loss dt => py_add loss (PyTensor (Scale (- fst dt)%num (snd dt))))
            (combine ds memory) (PyInt 0).

Definition total_loss (ds : list num) (a : Agent) : pyval :=
  py_add (weighted_loss ds (value_memory a)) (weighted_loss ds (action_memory a)).

(** The tensor on which [learn] calls [backward()], when it gets that
    far. *)
Definition learn_loss (a : Agent) : option tensor :=
  obind (gains (reward_memory a)) (fun G =>
  obind (deltas G (value_memory a)) (fun ds =>
  obind (nth_error G 0) (fun _ =>
  match total_loss ds a with
  | PyTensor t => Some t
  | PyInt _ => None
  end))).

(** [learn]: the returns, the deltas and the score, the two losses,
    [backward()] on their sum, which raises [RuntimeError] when no
    tensor in it requires a gradient, the two optimizer steps and the
    emptying of the buffers. *)
Definition learn : M unit :=
  a <- get_agent ;;
  G <- of_option (gains (reward_memory a)) ;;
  ds <- of_option (deltas G (value_memory a)) ;;
  g0 <- of_option (nth_error G 0) ;;
  match total_loss ds a with
  | PyInt _ => raise
  | PyTensor loss =>
      if requires_grad loss
      then put_agent {| reward_memory := [];
                        action_memory := [];
                        value_memory := [];
                        mean_memory := mean_memory a;
                        sd_memory := sd_memory a;
                        value := value_step loss (value a);
                        policy := policy_step loss (policy a);
                        mean := mean a;
                        sd := sd a;
                        reward := reward a;
                        score := Some g0 |}
      else raise
  end.

(** *** The environment step and the training loop (lines 192-271) *)

(** [wealth(x, sample)]: one call of [np.random.randn()]. *)
Definition wealth (x sample : num) : M num :=
  z <- np_draw ;;
  ret (x + sigma * sample * (rho * dt + np_sqrt dt * z))%num.

(** [np.random.uniform(low, high)] *)
Definition np_uniform (low high : num) : M num :=
  u <- np_draw ;;
  ret (low + (high - low) * u)%num.

(** The variables of one pass through the body of the epoch loop.
    [new_wealth] is unbound until the first step has run.
    [episode_actions] is not a variable of the script: it lists the
    successive values of its variable [action]. *)
Record Locals : Type := {
  curr_wealth : num;
  new_wealth : option num;
  episode_wealths : list num;
  episode_actions : list num
}.

(** [for k in range(n): store_rewards(0); store_value(torch.Tensor([0]))] *)
Fixpoint pad (n : nat) : M unit :=
  match n with
  | O => ret tt
  | S n' => store_rewards zero ;; store_value (Lit zero) ;; pad n'
  end.

(** The body of [for i in range(N)]; the boolean tells whether it
    ended in [break]. *)
Definition step (i : nat) (l : Locals) : M (Locals * bool) :=
  let t := (of_Z (Z.of_nat i) * dt)%num in
  v <- get_value (curr_wealth l) t ;;
  store_value v ;;
  action <- choose_action (curr_wealth l) t ;;
  a <- get_agent ;;
  rw <- of_option (reward a) ;;
  store_rewards rw ;;
  x_new <- wealth (curr_wealth l) action ;;
  (if (i =? 0)%nat
   then append_episode_values (item v) ;;
        a0 <- get_agent ;;
        s0 <- of_option (sd a0) ;;
        store_sds (item s0) ;;
        m0 <- of_option (mean a0) ;;
        store_means (item m0)
   else ret tt) ;;
  let x_clamped := if (x_new <? zero)%num then zero else x_new in
  let l' := {| curr_wealth := x_clamped;
               new_wealth := Some x_clamped;
               episode_wealths := episode_wealths l ++ [curr_wealth l];
               episode_actions := episode_actions l ++ [action] |} in
  if (x_clamped =? zero)%num
  then pad (N - 1 - i) ;; ret (l', true)
  else ret (l', false).

Fixpoint loop (steps : list nat) (l : Locals) : M Locals :=
  match steps with
  | [] => ret l
  | i :: steps' =>
      lb <- step i l ;;
      if snd lb then ret (fst lb) else loop steps' (fst lb)
  end.

(** One episode up to the call of [learn]: the draw of the initial
    wealth, the loop, and the terminal reward. *)
Definition rollout : M Locals :=
  x <- np_uniform (dec 0 10) (dec 15 10) ;;
  l <- loop (seq 0 N) {| curr_wealth := x;
                          new_wealth := None;
                          episode_wealths := [];
                          episode_actions := [] |} ;;
  nw <- of_option (new_wealth l) ;;
  store_rewards (util nw) ;;
  ret l.

(** The body of [for epoch in range(EPOCHS)]. *)
Definition episode : M Locals :=
  l <- rollout ;;
  learn ;;
  a <- get_agent ;;
  sc <- of_option (score a) ;;
  append_episode_scores sc ;;
  ret l.

(** [for epoch in range(EPOCHS)] *)
Fixpoint training (epochs : nat) : M unit :=
  match epochs with
  | O => ret tt
  | S epochs' => episode ;; training epochs'
  end.

End Methods.

(** ** Notions used to state the properties *)

Section Notions.

Context {F : Scalar} {L : Library F}.

(** The sum of the rewards stored after index [j], added up in the
    order of the list, starting from 0. *)
Definition suffix_sum (rm : list num) (j : nat) : num :=
  fold_left fadd (skipn (j + 1) rm) zero.

(** The episode buffers are empty: the state in which [__init__] and
    every call of [learn] leave the agent. *)
Definition fresh (a : Agent) : Prop :=
  reward_memory a = [] /\ action_memory a = [] /\ value_memory a = [].

(** The rollout stopped after step [i] with wealth equal to 0:
    [episode_wealths] has one entry for each step that ran. *)
Definition ruined_at (i : nat) (l : Locals) : Prop :=
  length (episode_wealths l) = S i /\
  (curr_wealth l =? zero)%num = true.

(** A Python variable that starts at 0 and has the tensors [ts] added
    to it one after the other. *)
Definition tensor_sum (ts : list tensor) : pyval :=
  fold_left (fun acc t => py_add acc (PyTensor t)) ts (PyInt 0).

(** [loss] is the sum over [j = 0 .. n-1] of [-ds[j] * memory[j]]. *)
Definition sums_range_over (n : nat) (ds : list num) (memory : list tensor)
  (loss : pyval) : Prop :=
  exists ts, length ts = n /\ loss = tensor_sum ts /\
    forall j, j < n ->
      exists d t, nth_error ds j = Some d /\ nth_error memory j = Some t /\
                  nth_error ts j = Some (Scale (- d)%num t).

(** The deltas of [learn] are the returns minus the detached value
    estimates, and the tensor it calls [backward()] on is the sum of a
    value loss over the first [n_value] steps and a policy loss over
    the first [n_policy] steps, each term a stored tensor scaled by
    minus the step's delta. *)
Definition learn_sums (N n_value n_policy : nat) (a : Agent) : Prop :=
  exists G ds,
    gains N (reward_memory a) = Some G /\
    deltas N G (value_memory a) = Some ds /\
    (forall j, j < N ->
       exists g v, nth_error G j = Some g /\
                   nth_error (value_memory a) j = Some v /\
                   nth_error ds j = Some (g - item v)%num) /\
    exists val_loss policy_loss t,
      sums_range_over n_value ds (value_memory a) val_loss /\
      sums_range_over n_policy ds (action_memory a) policy_loss /\
      learn_loss N a = Some t /\
      PyTensor t = py_add val_loss policy_loss.

(** What [backward()] on a loss sends to the graph. *)
Definition loss_backward (loss : pyval) : list (tensor * num) :=
  match loss with
  | PyTensor t => backward one t
  | PyInt _ => []
  end.

(** Two generators that are at the same position and give the same
    next [n] draws. *)
Definition agree (n : nat) (g1 g2 : rng) : Prop :=
  pos g1 = pos g2 /\
  forall k, k < n -> draws g1 (pos g1 + k) = draws g2 (pos g2 + k).

(** Two process states with the same agent whose generators give the
    same next [n] numpy draws and the same next [m] torch draws. *)
Definition same_run (n m : nat) (w1 w2 : World) : Prop :=
  agent w1 = agent w2 /\
  agree n (np_random w1) (np_random w2) /\
  agree m (torch_random w1) (torch_random w2).

(** A computation runs in lockstep when, on two states that agree on
    the agent and on the next [n] and [m] draws, it either fails on
    both or returns the same result on both and leaves states that
    agree on the agent and on the next [n'] and [m'] draws. *)
Definition lockstep {A : Type} (n m n' m' : nat) (c : M A) : Prop :=
  forall w1 w2, same_run n m w1 w2 ->
    match c w1, c w2 with
    | Some (a1, w1'), Some (a2, w2') => a1 = a2 /\ same_run n' m' w1' w2'
    | None, None => True
    | _, _ => False
    end.

(** What one rollout leaves to be observed: the variables of the loop
    (initial and later wealths, actions) and the agent (rewards, value
    estimates, log-probabilities). *)
Definition trajectory (o : option (Locals * World)) : option (Locals * Agent) :=
  option_map (fun lw => (fst lw, agent (snd lw))) o.

(** Both networks of the agent accept every two-component state. *)
Definition nets_accept (a : Agent) : Prop :=
  (forall x tt, exists v, value_forward (value a) [x; tt] = Some v) /\
  (forall x tt, exists ms, policy_forward (policy a) [x; tt] = Some ms).

End Notions.

(** ** Notions for the trace of an episode *)

Section TraceNotions.

Context {F : Scalar} {L : Library F}.

(** The wealths of an episode in order: those the loop has recorded
    in [episode_wealths], then the current one. *)
Definition wealth_path (l : Locals) : list num :=
  episode_wealths l ++ [curr_wealth l].

(** [if new_wealth < 0: new_wealth = 0] *)
Definition clamp (x : num) : num :=
  if (x <? zero)%num then zero else x.

(** The second component of the state at step [j]: [T - j*dt]. *)
Definition time_to_go (j : nat) : num :=
  (T - of_Z (Z.of_nat j) * dt)%num.

(** What step [j] of a rollout leaves behind, for a rollout that began
    in the process state [w] (after the draw of the initial wealth the
    numpy generator is at position [P]) and ended with the variables
    [l] and the agent [a']: the step starts at the [j]-th wealth of the
    path, the value estimate, the entropy reward and the
    log-probability stored at index [j] are those of the two networks
    at that state, the action is the policy's mean plus its scale times
    the [j]-th torch draw, and the next wealth of the path is the
    clamped transition with the [j]-th numpy draw after [P]. *)
Definition step_record (w : World) (P : nat) (l : Locals) (a' : Agent)
  (j : nat) : Prop :=
  exists x v m s,
    let act := normal_sample m s
                 (draws (torch_random w) (pos (torch_random w) + j)) in
    nth_error (wealth_path l) j = Some x /\
    value_forward (value (agent w)) [x; time_to_go j] = Some v /\
    policy_forward (policy (agent w)) [x; time_to_go j] = Some (m, s) /\
    nth_error (episode_actions l) j = Some act /\
    nth_error (value_memory a') j = Some (Node OValue x (time_to_go j) v) /\
    nth_error (reward_memory a') j = Some (lam * normal_entropy s)%num /\
    nth_error (action_memory a') j
      = Some (Node (OLogProb act) x (time_to_go j) (normal_log_prob m s act)) /\
    nth_error (wealth_path l) (j + 1)
      = Some (clamp (x + sigma * act
                         * (rho * dt + np_sqrt dt * draws (np_random w) (P + j)))%num).

(** Two process states that agree on the agent, on the next draws
    and on the histories of scores and initial values. *)
Definition same_process (n m : nat) (w1 w2 : World) : Prop :=
  same_run n m w1 w2 /\
  episode_scores w1 = episode_scores w2 /\
  episode_values w1 = episode_values w2.

(** Whether a loss that may still be the [int] 0 is a tensor that
    requires a gradient. *)
Definition loss_requires_grad (loss : pyval) : bool :=
  match loss with
  | PyTensor t => requires_grad t
  | PyInt _ => false
  end.

End TraceNotions.

(** ** Notions for the scale of the policy in floating point *)

Section FloatNotions.

Context {F : Scalar} {L : Library F}.

(** A policy network whose output does not depend on a finite state:
    all weights 0, the biases of [fc3] the two given numbers. *)
Definition constant_policy (first second : num) : PolicyNetwork := {|
  p_fc1 := {| weight := [[zero; zero]]; bias := [zero] |};
  p_fc2 := {| weight := [[zero]]; bias := [zero] |};
  p_fc3 := {| weight := [[zero]; [zero]]; bias := [first; second] |};
  p_optimizer := new_adam (dec 5 1000)
|}.

End FloatNotions.

(** A float that is neither infinite nor NaN. *)
Definition is_finite (x : spec_float) : bool :=
  match x with
  | S754_zero _ | S754_finite _ _ _ => true
  | S754_infinity _ | S754_nan => false
  end.

(** ** Concrete data for running the model in binary64 *)

Module Demo.

#[local] Existing Instance b64.

(** [SpecFloat] specifies the IEEE operations, the square root among
    them, but not the C library's transcendental functions.  The runs
    below take short numerical approximations in their place: the
    exponential as [(1 + x/1024)^1024], the logarithm from the series
    of the inverse hyperbolic tangent, the power from both. *)
Definition approx_exp (x : B64.float) : B64.float :=
  let sq (y : B64.float) := SFmul B64.prec B64.emax y y in
  let y0 := SFadd B64.prec B64.emax (B64.of_Z 1)
              (SFdiv B64.prec B64.emax x (B64.of_Z 1024)) in
  sq (sq (sq (sq (sq (sq (sq (sq (sq (sq y0))))))))).

Definition approx_log (x : B64.float) : B64.float :=
  let u := SFdiv B64.prec B64.emax
             (SFsub B64.prec B64.emax x (B64.of_Z 1))
             (SFadd B64.prec B64.emax x (B64.of_Z 1)) in
  let u2 := SFmul B64.prec B64.emax u u in
  let term (k : Z) (p : B64.float) := SFdiv B64.prec B64.emax p (B64.of_Z k) in
  let u3 := SFmul B64.prec B64.emax u u2 in
  let u5 := SFmul B64.prec B64.emax u3 u2 in
  let u7 := SFmul B64.prec B64.emax u5 u2 in
  SFmul B64.prec B64.emax (B64.of_Z 2)
    (SFadd B64.prec B64.emax u
       (SFadd B64.prec B64.emax (term 3%Z u3)
          (SFadd B64.prec B64.emax (term 5%Z u5) (term 7%Z u7)))).

Definition lib : Library b64 :=
  @Build_Library b64
    (SFsqrt B64.prec B64.emax)
    (fun x y => approx_exp (SFmul B64.prec B64.emax y (approx_log x)))
    approx_exp
    approx_log
    (S754_finite false 0x1921fb54442d18 (-51)).

#[local] Existing Instance lib.

(** A policy network with one unit per hidden layer whose output does
    not depend on the state: mean 16, scale [softplus 0]. *)
Definition policy_net : PolicyNetwork (F := b64) := {|
  p_fc1 := {| weight := [[zero; zero]]; bias := [zero] |};
  p_fc2 := {| weight := [[zero]]; bias := [zero] |};
  p_fc3 := {| weight := [[zero]; [zero]]; bias := [of_Z 16; zero] |};
  p_optimizer := new_adam (dec 5 1000)
|}.

(** A value network of the same shape with the constant output 1. *)
Definition value_net : ValueFuncNetwork (F := b64) := {|
  v_fc1 := {| weight := [[zero; zero]]; bias := [zero] |};
  v_fc2 := {| weight := [[zero]]; bias := [zero] |};
  v_fc3 := {| weight := [[zero]]; bias := [one] |};
  v_optimizer := new_adam (dec 5 1000)
|}.

(** The agent as [Agent.__init__] leaves it. *)
Definition agent0 : Agent (F := b64) := {|
  reward_memory := [];
  action_memory := [];
  value_memory := [];
  mean_memory := [];
  sd_memory := [];
  value := value_net;
  policy := policy_net;
  mean := None;
  sd := None;
  reward := None;
  score := None
|}.

(** The optimizers of the runs leave the networks as they are. *)
Definition no_step (A : Type) (_ : tensor (F := b64)) (net : A) : A := net.

(** torch draws: all 0, so every action is the mean. *)
Definition torch_draws (k : nat) : B64.float := zero.

(** numpy draws of an episode that runs the full horizon: the uniform
    draw 1/2 (initial wealth 0.75), then normal draws 0. *)
Definition np_draws_full (k : nat) : B64.float :=
  match k with
  | O => dec 5 10
  | _ => zero
  end.

(** numpy draws of an episode ruined at step 0: the uniform draw 1/2,
    then the normal draw -5. *)
Definition np_draws_ruin (k : nat) : B64.float :=
  match k with
  | O => dec 5 10
  | 1%nat => of_Z (-5)
  | _ => zero
  end.

Definition world (np : nat -> B64.float) : World (F := b64) := {|
  agent := agent0;
  np_random := {| draws := np; pos := 0 |};
  torch_random := {| draws := torch_draws; pos := 0 |};
  episode_scores := [];
  episode_values := []
|}.

(** Generators that give the draws of the full episode for as long as
    a two-step rollout reads them, and other draws afterwards. *)
Definition np_draws_later (k : nat) : B64.float :=
  if (k <? 3)%nat then np_draws_full k else one.

Definition torch_draws_later (k : nat) : B64.float :=
  if (k <? 2)%nat then zero else one.

Definition world_later : World (F := b64) := {|
  agent := agent0;
  np_random := {| draws := np_draws_later; pos := 0 |};
  torch_random := {| draws := torch_draws_later; pos := 0 |};
  episode_scores := [];
  episode_values := []
|}.

Definition world_full : World (F := b64) := world np_draws_full.
Definition world_ruin : World (F := b64) := world np_draws_ruin.

(** The end of a rollout, for rollouts that do not fail. *)
Definition run (n : nat) (w : World (F := b64)) : Locals * World :=
  match rollout n w with
  | Some lw => lw
  | None => ({| curr_wealth := zero; new_wealth := None;
                episode_wealths := []; episode_actions := [] |}, w)
  end.

(** The full episode and the ruined episode with the program's two
    steps, and one call of [choose_action] in the initial state, all
    evaluated. *)
Definition full_end : Locals * World := Eval vm_compute in run 2 world_full.
Definition ruin_end : Locals * World := Eval vm_compute in run 2 world_ruin.

Definition chosen : B64.float * World :=
  Eval vm_compute in
    match choose_action (dec 75 100) zero world_full with
    | Some aw => aw
    | None => (zero, world_full)
    end.

End Demo.

(** Whole episodes on the same data, with optimizers that leave the
    networks as they are, evaluated. *)
Module DemoRuns.

#[local] Existing Instance b64.
#[local] Existing Instance Demo.lib.

Definition run_episode (w : World (F := b64)) : Locals * World :=
  match episode 2 (Demo.no_step _) (Demo.no_step _) w with
  | Some lw => lw
  | None => (fst (Demo.run 2 w), w)
  end.

Definition run_training (epochs : nat) (w : World (F := b64)) : World :=
  match training 2 (Demo.no_step _) (Demo.no_step _) epochs w with
  | Some (_, w') => w'
  | None => w
  end.

Definition full_episode_end : Locals * World :=
  Eval vm_compute in run_episode Demo.world_full.

Definition ruin_episode_end : Locals * World :=
  Eval vm_compute in run_episode Demo.world_ruin.

Definition training_end : World :=
  Eval vm_compute in run_training 2 Demo.world_ruin.

(** A stand-in for the step of Adam that has what matters for
    reproducibility, a dependence on the optimizer's own state: it
    counts the step and moves the biases of the last layer by
    [lr * loss / steps]. *)
Definition count_step (opt : Adam (F := b64)) : Adam := {|
  adam_lr := adam_lr opt;
  adam_steps := S (adam_steps opt);
  exp_avg := exp_avg opt;
  exp_avg_sq := exp_avg_sq opt
|}.

Definition move (opt : Adam (F := b64)) (loss : tensor) (l : Linear) : Linear := {|
  weight := weight l;
  bias := map (fun b => (b - adam_lr opt * item loss
                             / of_Z (Z.of_nat (S (adam_steps opt))))%num)
              (bias l)
|}.

Definition value_step (loss : tensor (F := b64)) (net : ValueFuncNetwork)
  : ValueFuncNetwork := {|
  v_fc1 := v_fc1 net;
  v_fc2 := v_fc2 net;
  v_fc3 := move (v_optimizer net) loss (v_fc3 net);
  v_optimizer := count_step (v_optimizer net)
|}.

Definition policy_step (loss : tensor (F := b64)) (net : PolicyNetwork)
  : PolicyNetwork := {|
  p_fc1 := p_fc1 net;
  p_fc2 := p_fc2 net;
  p_fc3 := move (p_optimizer net) loss (p_fc3 net);
  p_optimizer := count_step (p_optimizer net)
|}.

(** Generators that give the draws of [Demo.world_full] for as long
    as two episodes of two steps read them, and other draws
    afterwards. *)
Definition np_draws_after (k : nat) : B64.float :=
  if (k <? 6)%nat then Demo.np_draws_full k else one.

Definition torch_draws_after (k : nat) : B64.float :=
  if (k <? 4)%nat then zero else one.

Definition world_after : World (F := b64) := {|
  agent := Demo.agent0;
  np_random := {| draws := np_draws_after; pos := 0 |};
  torch_random := {| draws := torch_draws_after; pos := 0 |};
  episode_scores := [];
  episode_values := []
|}.

Definition run_stateful (epochs : nat) (w : World (F := b64)) : World :=
  match training 2 value_step policy_step epochs w with
  | Some (_, w') => w'
  | None => w
  end.

Definition stateful_end : World :=
  Eval vm_compute in run_stateful 2 Demo.world_full.

End DemoRuns.

(** The library functions in float32, by the same approximations. *)
Module Demo32.

Definition approx_exp (x : spec_float) : spec_float :=
  let sq (y : spec_float) := SFmul B32.prec B32.emax y y in
  let y0 := SFadd B32.prec B32.emax (B32.of_Z 1)
              (SFdiv B32.prec B32.emax x (B32.of_Z 1024)) in
  sq (sq (sq (sq (sq (sq (sq (sq (sq (sq y0))))))))).

Definition approx_log (x : spec_float) : spec_float :=
  let u := SFdiv B32.prec B32.emax
             (SFsub B32.prec B32.emax x (B32.of_Z 1))
             (SFadd B32.prec B32.emax x (B32.of_Z 1)) in
  let u2 := SFmul B32.prec B32.emax u u in
  let term (k : Z) (p : spec_float) := SFdiv B32.prec B32.emax p (B32.of_Z k) in
  let u3 := SFmul B32.prec B32.emax u u2 in
  let u5 := SFmul B32.prec B32.emax u3 u2 in
  let u7 := SFmul B32.prec B32.emax u5 u2 in
  SFmul B32.prec B32.emax (B32.of_Z 2)
    (SFadd B32.prec B32.emax u
       (SFadd B32.prec B32.emax (term 3%Z u3)
          (SFadd B32.prec B32.emax (term 5%Z u5) (term 7%Z u7)))).

Definition lib : Library b32 :=
  @Build_Library b32
    (SFsqrt B32.prec B32.emax)
    (fun x y => approx_exp (SFmul B32.prec B32.emax y (approx_log x)))
    approx_exp
    approx_log
    (S754_finite false 0xc90fdb (-22)).

End Demo32.

(** * Properties *)

(** ** Constants *)

Lemma N_steps_b64 : @N_steps b64 = Some 2%nat.
Proof. vm_compute. reflexivity. Qed.

(** ** Returns and deltas of [Agent.learn] *)

Section Returns.

Context {F : Scalar}.
Variable N : nat.

Lemma skipn_nth_error (A : Type) (l : list A) (m : nat) (x : A) :
  nth_error l m = Some x -> skipn m l = x :: skipn (S m) l.
Proof.
  revert m. induction l as [|y l IH]; intros m Hx.
  - destruct m; discriminate.
  - destruct m as [|m]; simpl in Hx.
    + injection Hx as ->. reflexivity.
    + change (skipn m l = x :: skipn (S m) l). apply IH, Hx.
Qed.

Lemma accumulate_seq (rm : list num) (n j : nat) (R : num) :
  j + n + 1 <= length rm ->
  accumulate rm (seq j n) R
  = Some (fold_left fadd (firstn n (skipn (j + 1) rm)) R).
Proof.
  revert j R.
  induction n as [|n IH]; intros j R Hlen; simpl.
  - reflexivity.
  - destruct (nth_error rm (j + 1)) as [x|] eqn:Hx.
    + rewrite IH by lia.
      assert (Hsk : skipn (j + 1) rm = x :: skipn (S j + 1) rm)
        by (apply skipn_nth_error, Hx).
      rewrite Hsk. reflexivity.
    + apply nth_error_None in Hx. lia.
Qed.

Lemma accumulate_suffix (rm : list num) (j : nat) :
  length rm = N + 1 -> j <= N ->
  accumulate rm (seq j (N - j)) zero = Some (suffix_sum rm j).
Proof.
  intros Hlen Hj.
  rewrite accumulate_seq by lia.
  unfold suffix_sum.
  rewrite firstn_all2; [reflexivity|].
  rewrite length_skipn. lia.
Qed.

Lemma gains_loop_map (rm : list num) (js : list nat) (G : list num) :
  length rm = N + 1 ->
  Forall (fun j => j <= N) js ->
  gains_loop N rm js G = Some (G ++ map (suffix_sum rm) js).
Proof.
  intros Hlen. revert G.
  induction js as [|j js IH]; intros G Hjs; simpl.
  - rewrite app_nil_r. reflexivity.
  - inversion Hjs as [|? ? Hj Hrest]; subst.
    rewrite accumulate_suffix by assumption.
    rewrite IH by assumption.
    rewrite <- app_assoc. reflexivity.
Qed.

Lemma gains_map (rm : list num) :
  length rm = N + 1 ->
  gains N rm = Some (map (suffix_sum rm) (seq 0 N)).
Proof.
  intros Hlen. unfold gains.
  rewrite gains_loop_map; [reflexivity | assumption |].
  apply Forall_forall. intros j Hj. apply in_seq in Hj. lia.
Qed.

(** C1. With [N+1] stored rewards, the return computation of
    [Agent.learn] ends without an index error, fills [G] with [N]
    entries, and [G[j]] is the sum of the rewards at the indices
    [j+1 .. N]: the reward stored at [j] itself is left out. *)
Theorem C1_returns_are_suffix_sums (rm : list num) :
  length rm = N + 1 ->
  exists G, gains N rm = Some G /\ length G = N /\
    forall j, j < N -> nth_error G j = Some (suffix_sum rm j).
Proof.
  intros Hlen.
  exists (map (suffix_sum rm) (seq 0 N)).
  split; [apply gains_map; assumption|].
  split; [rewrite length_map, length_seq; reflexivity|].
  intros j Hj.
  rewrite nth_error_map, nth_error_seq.
  destruct (Nat.ltb_spec j N); [reflexivity | lia].
Qed.

End Returns.

(** The example of the specification: the rewards [[1,2,3,4]] with
    [N = 3] give [G = [9, 7, 4]]. *)
Example gains_1234 :
  gains (F := b64) 3 (map of_Z [1; 2; 3; 4]%Z) = Some (map of_Z [9; 7; 4]%Z).
Proof. vm_compute. reflexivity. Qed.

Lemma C1_returns_witness :
  exists G, gains (F := b64) 3 (map of_Z [1; 2; 3; 4]%Z) = Some G /\
    length G = 3 /\
    forall j, j < 3 ->
      nth_error G j = Some (suffix_sum (map of_Z [1; 2; 3; 4]%Z) j).
Proof.
  apply (@C1_returns_are_suffix_sums b64 3 (map of_Z [1; 2; 3; 4]%Z)).
  reflexivity.
Defined.

(** ** The forward passes accept well-shaped networks *)

Section Shapes.

Context {F : Scalar} {L : Library F}.

Lemma affine_defined (rows : list (list num)) (bs x : list num) :
  length rows = length bs ->
  Forall (fun row => length row = length x) rows ->
  exists ys, affine rows bs x = Some ys /\ length ys = length rows.
Proof.
  revert bs. induction rows as [|row rows IH]; intros bs Hlen Hrows.
  - destruct bs; [|discriminate]. exists []. split; reflexivity.
  - destruct bs as [|b bs]; [discriminate|].
    inversion Hrows as [|? ? Hrow Hrest]; subst.
    destruct (IH bs) as (ys & Hys & Hl); [simpl in Hlen; lia | assumption |].
    simpl. unfold dot. rewrite Hrow, Nat.eqb_refl, Hys.
    eexists. split; [reflexivity|]. simpl. rewrite Hl. reflexivity.
Qed.

Lemma apply_linear_defined (n_in n_out : nat) (l : Linear) (x : list num) :
  linear_shape n_in n_out l -> length x = n_in ->
  exists y, apply_linear l x = Some y /\ length y = n_out.
Proof.
  intros (Hw & Hb & Hrows) Hx.
  destruct (affine_defined (weight l) (bias l) x) as (y & Hy & Hl).
  - congruence.
  - rewrite Hx. exact Hrows.
  - exists y. split; [exact Hy | congruence].
Qed.

Lemma policy_forward_defined (l1_size l2_size : nat) (net : PolicyNetwork)
  (x tt : num) :
  policy_shape l1_size l2_size net ->
  exists ms, policy_forward net [x; tt] = Some ms.
Proof.
  intros (H1 & H2 & H3). unfold policy_forward.
  destruct (apply_linear_defined _ _ _ [x; tt] H1) as (h1 & -> & Hl1); [reflexivity|].
  simpl.
  destruct (apply_linear_defined _ _ _ (map (leaky_relu (dec 1 10)) h1) H2)
    as (h2 & -> & Hl2); [rewrite length_map; exact Hl1|].
  simpl.
  destruct (apply_linear_defined _ _ _ (map (leaky_relu (dec 1 10)) h2) H3)
    as (h3 & -> & Hl3); [rewrite length_map; exact Hl2|].
  simpl.
  destruct h3 as [|m [|s h3]]; try discriminate.
  eexists. reflexivity.
Qed.

Lemma value_forward_defined (l1_size l2_size : nat) (net : ValueFuncNetwork)
  (x tt : num) :
  value_shape l1_size l2_size net ->
  exists v, value_forward net [x; tt] = Some v.
Proof.
  intros (H1 & H2 & H3). unfold value_forward.
  destruct (apply_linear_defined _ _ _ [x; tt] H1) as (h1 & -> & Hl1); [reflexivity|].
  simpl.
  destruct (apply_linear_defined _ _ _ (map (leaky_relu (dec 1 100)) h1) H2)
    as (h2 & -> & Hl2); [rewrite length_map; exact Hl1|].
  simpl.
  destruct (apply_linear_defined _ _ _ (map (leaky_relu (dec 1 100)) h2) H3)
    as (h3 & -> & Hl3); [rewrite length_map; exact Hl2|].
  simpl.
  destruct h3 as [|v [|v' h3]]; try discriminate.
  eexists. reflexivity.
Qed.

Lemma shapes_accept (a : Agent) (p1 p2 v1 v2 : nat) :
  policy_shape p1 p2 (policy a) -> value_shape v1 v2 (value a) ->
  nets_accept a.
Proof.
  intros Hp Hv. split; intros x tt.
  - eapply value_forward_defined; eassumption.
  - eapply policy_forward_defined; eassumption.
Qed.

End Shapes.

(** ** Deltas and losses of [Agent.learn] *)

Section Learn.

Context {F : Scalar} {L : Library F}.
Variable N : nat.

Lemma deltas_loop_map (G : list num) (vm : list tensor) (js : list nat)
  (ds : list num) :
  Forall (fun j => j < length G /\ j < length vm) js ->
  deltas_loop G vm js ds
  = Some (ds ++ map (fun j => (nth j G zero - item (nth j vm (Lit zero)))%num) js).
Proof.
  revert ds. induction js as [|j js IH]; intros ds Hjs; simpl.
  - rewrite app_nil_r. reflexivity.
  - inversion Hjs as [|? ? [HjG Hjv] Hrest]; subst.
    rewrite (nth_error_nth' G zero HjG), (nth_error_nth' vm (Lit zero) Hjv).
    rewrite IH by assumption. rewrite <- app_assoc. reflexivity.
Qed.

Lemma deltas_map (G : list num) (vm : list tensor) :
  N <= length G -> N <= length vm ->
  deltas N G vm
  = Some (map (fun j => (nth j G zero - item (nth j vm (Lit zero)))%num) (seq 0 N)).
Proof.
  intros HG Hvm. unfold deltas.
  rewrite deltas_loop_map; [reflexivity|].
  apply Forall_forall. intros j Hj. apply in_seq in Hj. lia.
Qed.

Lemma weighted_loss_sum (ds : list num) (memory : list tensor) :
  weighted_loss ds memory
  = tensor_sum (map (fun dt => Scale (- fst dt)%num (snd dt)) (combine ds memory)).
Proof.
  unfold weighted_loss, tensor_sum.
  generalize (PyInt 0).
  induction (combine ds memory) as [|dt c IH]; intros acc; simpl.
  - reflexivity.
  - apply IH.
Qed.

Lemma nth_error_combine_Some (A B : Type) (l1 : list A) (l2 : list B)
  (j : nat) (a : A) (b : B) :
  nth_error l1 j = Some a -> nth_error l2 j = Some b ->
  nth_error (combine l1 l2) j = Some (a, b).
Proof.
  revert l2 j. induction l1 as [|x l1 IH]; intros l2 j H1 H2.
  - destruct j; discriminate.
  - destruct l2 as [|y l2]; [destruct j; discriminate|].
    destruct j as [|j]; simpl in *.
    + congruence.
    + apply IH; assumption.
Qed.

(** The loss that [zip] builds has one term for each index that both
    lists have. *)
Lemma weighted_loss_range (ds : list num) (memory : list tensor) :
  sums_range_over (Nat.min (length ds) (length memory)) ds memory
    (weighted_loss ds memory).
Proof.
  exists (map (fun dt => Scale (- fst dt)%num (snd dt)) (combine ds memory)).
  split; [rewrite length_map, length_combine; reflexivity|].
  split; [apply weighted_loss_sum|].
  intros j Hj.
  destruct (nth_error ds j) as [d|] eqn:Hd;
    [|apply nth_error_None in Hd; lia].
  destruct (nth_error memory j) as [t|] eqn:Ht;
    [|apply nth_error_None in Ht; lia].
  exists d, t. repeat split.
  rewrite nth_error_map, (nth_error_combine_Some _ _ _ _ _ _ _ Hd Ht). reflexivity.
Qed.

Lemma loss_backward_add (acc : pyval) (t : tensor) :
  loss_backward (py_add acc (PyTensor t)) = loss_backward acc ++ backward one t.
Proof. destruct acc; reflexivity. Qed.

(** What [backward()] on a loss built by the [zip] loop sends to the
    graph: term by term, what each stored tensor receives. *)
Lemma loss_backward_weighted (ds : list num) (memory : list tensor) :
  loss_backward (weighted_loss ds memory)
  = flat_map (fun dt => backward (one * - fst dt)%num (snd dt)) (combine ds memory).
Proof.
  unfold weighted_loss.
  change (flat_map (fun dt => backward (one * - fst dt)%num (snd dt))
                   (combine ds memory))
    with (loss_backward (PyInt 0)
          ++ flat_map (fun dt => backward (one * - fst dt)%num (snd dt))
                      (combine ds memory)).
  generalize (PyInt 0).
  induction (combine ds memory) as [|dt c IH]; intros acc; simpl.
  - rewrite app_nil_r. reflexivity.
  - rewrite IH, loss_backward_add, <- app_assoc. reflexivity.
Qed.

(** Tensors made by [torch.Tensor([0])] receive nothing. *)
Lemma backward_padding (ds : list num) (vs : list tensor) (p : nat) (c : num) :
  flat_map (fun dt => backward (one * - fst dt)%num (snd dt))
           (combine ds (vs ++ repeat (Lit c) p))
  = flat_map (fun dt => backward (one * - fst dt)%num (snd dt)) (combine ds vs).
Proof.
  revert ds. induction vs as [|v vs IH]; intros ds; simpl.
  - rewrite combine_nil.
    revert ds. induction p as [|p IHp]; intros ds; simpl.
    + rewrite combine_nil. reflexivity.
    + destruct ds as [|d ds]; simpl; [reflexivity | apply IHp].
  - destruct ds as [|d ds]; simpl; [reflexivity|].
    rewrite IH. reflexivity.
Qed.

(** With [N+1] rewards and [N] value estimates stored, [learn] raises
    no index error and reaches [backward()]. *)
Lemma learn_loss_defined (a : Agent) :
  0 < N ->
  length (reward_memory a) = N + 1 ->
  length (value_memory a) = N ->
  exists G ds t,
    gains N (reward_memory a) = Some G /\ length G = N /\
    deltas N G (value_memory a) = Some ds /\ length ds = N /\
    (forall j, j < N ->
       exists g v, nth_error G j = Some g /\
                   nth_error (value_memory a) j = Some v /\
                   nth_error ds j = Some (g - item v)%num) /\
    total_loss ds a = PyTensor t /\
    learn_loss N a = Some t.
Proof.
  intros HN Hrm Hvm.
  pose (G := map (suffix_sum (reward_memory a)) (seq 0 N)).
  assert (HG : gains N (reward_memory a) = Some G) by (apply gains_map, Hrm).
  assert (HlG : length G = N)
    by (unfold G; rewrite length_map, length_seq; reflexivity).
  pose (ds := map (fun j => (nth j G zero
                             - item (nth j (value_memory a) (Lit zero)))%num)
                  (seq 0 N)).
  assert (Hds : deltas N G (value_memory a) = Some ds)
    by (apply deltas_map; lia).
  assert (Hlds : length ds = N)
    by (unfold ds; rewrite length_map, length_seq; reflexivity).
  assert (Hloss : exists t, total_loss ds a = PyTensor t).
  { unfold total_loss.
    assert (Hv : exists u, weighted_loss ds (value_memory a) = PyTensor u).
    { unfold weighted_loss.
      destruct ds as [|d ds']; [simpl in Hlds; lia|].
      destruct (value_memory a) as [|v vm']; [simpl in Hvm; lia|].
      simpl. generalize (AddInt 0 (Scale (- d)%num v)).
      induction (combine ds' vm') as [|dt c IH]; intros u; simpl.
      - exists u. reflexivity.
      - apply IH. }
    destruct Hv as (u & ->).
    destruct (weighted_loss ds (action_memory a)); eexists; reflexivity. }
  destruct Hloss as (t & Ht).
  exists G, ds, t.
  repeat split; try assumption.
  - intros j Hj.
    exists (nth j G zero), (nth j (value_memory a) (Lit zero)).
    repeat split.
    + apply nth_error_nth'. lia.
    + apply nth_error_nth'. lia.
    + unfold ds. rewrite nth_error_map, nth_error_seq.
      destruct (Nat.ltb_spec j N); [reflexivity | lia].
  - unfold learn_loss. rewrite HG. simpl. rewrite Hds. simpl.
    destruct G as [|g G']; [simpl in HlG; lia|]. simpl.
    rewrite Ht. reflexivity.
Qed.

End Learn.

(** ** The rollout *)

Section Rollout.

Context {F : Scalar} {L : Library F}.
Variable N : nat.

Ltac unfold_methods :=
  unfold step, get_value, store_value, choose_action, store_rewards, wealth,
    np_uniform, append_episode_values, store_sds, store_means, get_agent,
    put_agent, of_option, np_draw, torch_draw, next, bind, ret, raise.

Lemma pad_spec (n : nat) (w : World) :
  exists w', pad n w = Some (tt, w') /\
    reward_memory (agent w') = reward_memory (agent w) ++ repeat zero n /\
    value_memory (agent w') = value_memory (agent w) ++ repeat (Lit zero) n /\
    action_memory (agent w') = action_memory (agent w) /\
    policy (agent w') = policy (agent w) /\
    value (agent w') = value (agent w).
Proof.
  revert w. induction n as [|n IH]; intros w.
  - exists w. simpl. rewrite !app_nil_r. repeat split; reflexivity.
  - simpl. unfold_methods. simpl.
    match goal with |- context [pad n ?w0] => destruct (IH w0) as (w' & Hp & H) end.
    exists w'. split; [exact Hp|].
    simpl in H. rewrite <- !app_assoc in H. simpl in H. exact H.
Qed.

(** One pass through the loop body: one reward, one value estimate and
    one log-probability are stored; a pass that ends in [break] also
    stores the padding. *)
Lemma step_inv (i : nat) (l l' : Locals) (b : bool) (w w' : World) :
  step N i l w = Some ((l', b), w') ->
  exists rw v lp,
    reward_memory (agent w')
      = reward_memory (agent w) ++ rw :: (if b then repeat zero (N - 1 - i) else []) /\
    value_memory (agent w')
      = value_memory (agent w) ++ v :: (if b then repeat (Lit zero) (N - 1 - i) else []) /\
    action_memory (agent w') = action_memory (agent w) ++ [lp] /\
    policy (agent w') = policy (agent w) /\
    value (agent w') = value (agent w) /\
    b = (curr_wealth l' =? zero)%num /\
    new_wealth l' = Some (curr_wealth l') /\
    episode_wealths l' = episode_wealths l ++ [curr_wealth l].
Proof.
  unfold_methods. simpl.
  destruct (value_forward _ _) as [v|] eqn:Hv; [|discriminate].
  simpl.
  destruct (policy_forward _ _) as [ms|] eqn:Hp; [|discriminate].
  simpl.
  match goal with
  | |- context [(?c =? zero)%num] => destruct (c =? zero)%num eqn:Hz
  end.
  - destruct (i =? 0)%nat; simpl;
      match goal with
      | |- context [pad ?n ?w0] =>
          destruct (pad_spec n w0) as (w1 & Hpad & Hr & Hvm & Ha & Hpo & Hva)
      end;
      rewrite Hpad; intros H; injection H as <- <- <-;
      simpl in *; do 3 eexists;
      rewrite Hr, Hvm, Ha, Hpo, Hva, <- !app_assoc; simpl;
      repeat split; try reflexivity; symmetry; exact Hz.
  - destruct (i =? 0)%nat; simpl;
      intros H; injection H as <- <- <-;
      simpl; do 3 eexists;
      repeat split; try reflexivity; symmetry; exact Hz.
Qed.

(** The loop over the steps [i0 .. i0+n-1] that end at the horizon:
    [k] steps run, and the buffers are filled up to the horizon. *)
Lemma loop_inv (n i0 : nat) (l l' : Locals) (w w' : World) :
  i0 + n = N ->
  loop N (seq i0 n) l w = Some (l', w') ->
  exists k rs vs lps,
    k <= n /\ length rs = k /\ length vs = k /\ length lps = k /\
    reward_memory (agent w') = reward_memory (agent w) ++ rs ++ repeat zero (n - k) /\
    value_memory (agent w')
      = value_memory (agent w) ++ vs ++ repeat (Lit zero) (n - k) /\
    action_memory (agent w') = action_memory (agent w) ++ lps /\
    policy (agent w') = policy (agent w) /\
    value (agent w') = value (agent w) /\
    length (episode_wealths l') = length (episode_wealths l) + k /\
    (0 < n -> 0 < k /\ new_wealth l' = Some (curr_wealth l')) /\
    (k < n -> (curr_wealth l' =? zero)%num = true).
Proof.
  revert i0 l w.
  induction n as [|n IH]; intros i0 l w Hi0; simpl.
  - unfold ret. intros H; injection H as <- <-.
    exists 0, [], [], []. simpl. rewrite !app_nil_r.
    repeat split; intros; try reflexivity; try lia.
  - unfold bind at 1.
    destruct (step N i0 l w) as [[[l1 b] w1]|] eqn:Hstep; [|discriminate].
    apply step_inv in Hstep.
    destruct Hstep as (rw & v & lp & Hr & Hv & Ha & Hpo & Hva & Hb & Hnw & Hew).
    simpl. destruct b.
    + unfold ret. intros H; injection H as <- <-.
      exists 1, [rw], [v], [lp].
      replace (N - 1 - i0) with n in * by lia.
      replace (S n - 1) with n by lia.
      rewrite Hr, Hv, Ha, Hew, length_app. simpl. rewrite ?Nat.sub_0_r.
      repeat split; intros; try reflexivity; try lia; try assumption;
        try (symmetry; assumption).
    + intros Hloop.
      assert (Hn : n = 0 -> l' = l1).
      { intros ->. simpl in Hloop. unfold ret in Hloop. congruence. }
      apply IH in Hloop; [|lia].
      destruct Hloop as (k & rs & vs & lps & Hk & Hlr & Hlv & Hla & Hr' & Hv'
                         & Ha' & Hpo' & Hva' & Hew' & Hpos & Hruin).
      exists (S k), (rw :: rs), (v :: vs), (lp :: lps).
      rewrite Hr', Hv', Ha', Hpo', Hva', Hew', Hr, Hv, Ha, Hew, length_app.
      rewrite <- !app_assoc. simpl.
      repeat split; intros; try reflexivity; try lia; try assumption;
        try congruence.
      * destruct n as [|n'].
        -- rewrite Hn by reflexivity. exact Hnw.
        -- apply Hpos. lia.
      * apply Hruin. lia.
Qed.

Lemma step_defined (i : nat) (l : Locals) (w : World) :
  nets_accept (agent w) ->
  exists l' b w', step N i l w = Some ((l', b), w').
Proof.
  intros (Hv & Hp).
  destruct (Hv (curr_wealth l) (T - of_Z (Z.of_nat i) * dt)%num) as (v & Hv').
  destruct (Hp (curr_wealth l) (T - of_Z (Z.of_nat i) * dt)%num) as (ms & Hp').
  unfold_methods. simpl. rewrite Hv'. simpl. rewrite Hp'. simpl.
  match goal with
  | |- context [(?c =? zero)%num] => destruct (c =? zero)%num
  end.
  - destruct (i =? 0)%nat; simpl;
      match goal with
      | |- context [pad ?n ?w0] => destruct (pad_spec n w0) as (w1 & -> & _)
      end; do 3 eexists; reflexivity.
  - destruct (i =? 0)%nat; simpl; do 3 eexists; reflexivity.
Qed.

Lemma loop_defined (steps : list nat) (l : Locals) (w : World) :
  nets_accept (agent w) ->
  exists l' w', loop N steps l w = Some (l', w').
Proof.
  revert l w. induction steps as [|i steps IH]; intros l w Hacc; simpl.
  - do 2 eexists. reflexivity.
  - destruct (step_defined i l w Hacc) as (l1 & b & w1 & Hstep).
    unfold bind at 1. rewrite Hstep. simpl.
    destruct b.
    + do 2 eexists. reflexivity.
    + apply IH.
      apply step_inv in Hstep.
      destruct Hstep as (_ & _ & _ & _ & _ & _ & Hpo & Hva & _).
      destruct Hacc as (Hv & Hp).
      split; intros x tt; [rewrite Hva; apply Hv | rewrite Hpo; apply Hp].
Qed.

(** With at least one step to run and networks that accept the
    states, the rollout reaches the call of [learn]. *)
Lemma rollout_defined (w : World) :
  0 < N -> nets_accept (agent w) ->
  exists l w', rollout N w = Some (l, w').
Proof.
  intros HN Hacc.
  unfold rollout. unfold bind at 1.
  destruct (np_uniform (dec 0 10) (dec 15 10) w) as [[x w0]|] eqn:Hu;
    [|revert Hu; unfold_methods; discriminate].
  assert (Hagent : agent w0 = agent w).
  { revert Hu. unfold_methods. simpl. intros H; injection H as <- <-.
    reflexivity. }
  rewrite <- Hagent in Hacc.
  destruct (loop_defined (seq 0 N)
              {| curr_wealth := x; new_wealth := None;
                 episode_wealths := []; episode_actions := [] |} w0 Hacc)
    as (l1 & w1 & Hloop).
  unfold bind at 1. rewrite Hloop.
  apply loop_inv in Hloop; [|reflexivity].
  destruct Hloop as (k & _ & _ & _ & _ & _ & _ & _ & _ & _ & _ & _ & _ & _
                     & Hpos & _).
  destruct (Hpos HN) as (_ & Hnw).
  unfold_methods. rewrite Hnw. simpl.
  do 2 eexists. reflexivity.
Qed.

(** An episode that starts with empty buffers and reaches the end of
    the rollout: [k] steps ran, the buffers hold an entry for each of
    the [N] steps, and the terminal reward comes last. *)
Lemma rollout_inv (l : Locals) (w w' : World) :
  fresh (agent w) ->
  rollout N w = Some (l, w') ->
  exists k rs vs nw,
    0 < k /\ k <= N /\ length rs = k /\ length vs = k /\
    reward_memory (agent w') = rs ++ repeat zero (N - k) ++ [util nw] /\
    value_memory (agent w') = vs ++ repeat (Lit zero) (N - k) /\
    length (action_memory (agent w')) = k /\
    length (episode_wealths l) = k /\
    new_wealth l = Some nw /\ curr_wealth l = nw /\
    (k < N -> (nw =? zero)%num = true) /\
    policy (agent w') = policy (agent w) /\
    value (agent w') = value (agent w).
Proof.
  intros (Hr0 & Ha0 & Hv0).
  unfold rollout. unfold bind at 1.
  destruct (np_uniform _ _ w) as [[x w0]|] eqn:Hu; [|discriminate].
  assert (Hagent : agent w0 = agent w).
  { revert Hu. unfold_methods. simpl. intros H; injection H as <- <-.
    reflexivity. }
  unfold bind at 1.
  destruct (loop N (seq 0 N) _ w0) as [[l1 w1]|] eqn:Hloop; [|discriminate].
  assert (HN : N = 0 -> new_wealth l1 = None).
  { intros HN0. rewrite HN0 in Hloop. simpl in Hloop. unfold ret in Hloop.
    injection Hloop as <- <-. reflexivity. }
  apply loop_inv in Hloop; [|reflexivity].
  destruct Hloop as (k & rs & vs & lps & Hk & Hlr & Hlv & Hla & Hr & Hv
                     & Ha & Hpo & Hva & Hew & Hpos & Hruin).
  unfold_methods.
  destruct (new_wealth l1) as [nw|] eqn:Hnw; [|discriminate].
  simpl. intros H; injection H as <- <-. simpl.
  assert (HNpos : 0 < N).
  { destruct N; [specialize (HN eq_refl); discriminate | lia]. }
  destruct (Hpos HNpos) as (Hkpos & Hcurr).
  rewrite Hagent, Hr0, Hv0, Ha0 in *. simpl in *.
  exists k, rs, vs, nw.
  rewrite Hr, Hv, Ha, <- app_assoc.
  repeat split; intros; try reflexivity; try lia; try assumption.
  - congruence.
  - replace nw with (curr_wealth l1) by congruence. apply Hruin. assumption.
Qed.

End Rollout.

(** ** Episodes: buffers, ruin and the loss *)

Section Episodes.

Context {F : Scalar} {L : Library F}.
Variable N : nat.

Lemma rollout_lengths (l : Locals) (w w' : World) :
  fresh (agent w) ->
  rollout N w = Some (l, w') ->
  0 < N /\
  length (reward_memory (agent w')) = N + 1 /\
  length (value_memory (agent w')) = N /\
  length (action_memory (agent w')) = length (episode_wealths l) /\
  0 < length (episode_wealths l) <= N /\
  ((curr_wealth l =? zero)%num = false -> length (episode_wealths l) = N).
Proof.
  intros Hf Hr.
  destruct (rollout_inv N l w w' Hf Hr)
    as (k & rs & vs & nw & Hk0 & HkN & Hlr & Hlv & Hrm & Hvm & Ham & Hew
        & Hnw & Hcw & Hruin & _).
  rewrite Hrm, Hvm, Ham, Hew, !length_app, !repeat_length, Hlr, Hlv. simpl.
  repeat split; try lia.
  intros Hnz.
  destruct (Nat.eq_dec k N) as [|Hne]; [assumption|].
  rewrite Hcw, Hruin in Hnz by lia. discriminate.
Qed.

(** After ruin at step [i], the stored rewards and value estimates of
    the later steps are the padding, and the terminal reward is the
    utility of the final wealth. *)
Lemma ruin_padding (i : nat) (l : Locals) (w w' : World) :
  fresh (agent w) ->
  rollout N w = Some (l, w') ->
  ruined_at i l ->
  (forall k, i < k -> k < N ->
     nth_error (reward_memory (agent w')) k = Some zero /\
     nth_error (value_memory (agent w')) k = Some (Lit zero)) /\
  nth_error (reward_memory (agent w')) N = Some (util (curr_wealth l)) /\
  length (action_memory (agent w')) = i + 1 /\
  exists vs, length vs = i + 1 /\
    value_memory (agent w') = vs ++ repeat (Lit zero) (N - (i + 1)).
Proof.
  intros Hf Hr (Hi & Hz).
  destruct (rollout_inv N l w w' Hf Hr)
    as (k & rs & vs & nw & Hk0 & HkN & Hlr & Hlv & Hrm & Hvm & Ham & Hew
        & Hnw & Hcw & Hruin & _).
  assert (Hk : k = i + 1) by lia. rewrite Hk in *. clear Hk k.
  rewrite Hrm, Hvm, Ham.
  split; [|split; [|split]].
  - intros k Hik HkN'. split.
    + rewrite nth_error_app2 by lia.
      rewrite nth_error_app1 by (rewrite repeat_length; lia).
      apply nth_error_repeat. lia.
    + rewrite nth_error_app2 by lia.
      apply nth_error_repeat. lia.
  - rewrite nth_error_app2 by lia.
    rewrite Hlr.
    rewrite nth_error_app2 by (rewrite repeat_length; lia).
    rewrite repeat_length, Nat.sub_diag, Hcw. reflexivity.
  - reflexivity.
  - exists vs. split; [assumption | reflexivity].
Qed.

Lemma learn_fresh (value_step : tensor -> ValueFuncNetwork -> ValueFuncNetwork)
  (policy_step : tensor -> PolicyNetwork -> PolicyNetwork) (w w' : World) :
  learn N value_step policy_step w = Some (tt, w') -> fresh (agent w').
Proof.
  unfold learn, get_agent, put_agent, of_option, bind, ret, raise.
  destruct (gains N _) as [G|]; simpl; [|discriminate].
  destruct (deltas N G _) as [ds|]; simpl; [|discriminate].
  destruct G as [|g0 G']; simpl; [discriminate|].
  destruct (total_loss ds (agent w)) as [|loss]; simpl; [discriminate|].
  destruct (requires_grad loss); simpl; [|discriminate].
  intros H; injection H as H. rewrite <- H. repeat split.
Qed.

(** Every episode of the training loop ends, and so the next one
    begins, with empty buffers. *)
Lemma episode_fresh (value_step : tensor -> ValueFuncNetwork -> ValueFuncNetwork)
  (policy_step : tensor -> PolicyNetwork -> PolicyNetwork)
  (l : Locals) (w w' : World) :
  episode N value_step policy_step w = Some (l, w') -> fresh (agent w').
Proof.
  unfold episode. unfold bind at 1.
  destruct (rollout N w) as [[l1 w1]|]; [|discriminate].
  unfold bind at 1.
  destruct (learn N value_step policy_step w1) as [[[] w2]|] eqn:Hlearn;
    [|discriminate].
  apply learn_fresh in Hlearn.
  unfold get_agent, of_option, append_episode_scores, bind, ret, raise.
  destruct (score (agent w2)); simpl; [|discriminate].
  intros H; injection H as _ <-. exact Hlearn.
Qed.

Lemma training_fresh (value_step : tensor -> ValueFuncNetwork -> ValueFuncNetwork)
  (policy_step : tensor -> PolicyNetwork -> PolicyNetwork)
  (epochs : nat) (w w' : World) :
  fresh (agent w) ->
  training N value_step policy_step epochs w = Some (tt, w') ->
  fresh (agent w').
Proof.
  revert w. induction epochs as [|epochs IH]; intros w Hf; simpl.
  - unfold ret. intros H; injection H as <-. exact Hf.
  - unfold bind at 1.
    destruct (episode N value_step policy_step w) as [[l w1]|] eqn:He;
      [|discriminate].
    apply IH. eapply episode_fresh; exact He.
Qed.

(** The score that [learn] records is the return of the first step. *)
Lemma learn_score (value_step : tensor -> ValueFuncNetwork -> ValueFuncNetwork)
  (policy_step : tensor -> PolicyNetwork -> PolicyNetwork) (w w' : World) :
  length (reward_memory (agent w)) = N + 1 ->
  learn N value_step policy_step w = Some (tt, w') ->
  score (agent w') = Some (suffix_sum (reward_memory (agent w)) 0).
Proof.
  intros Hlen.
  unfold learn, get_agent, put_agent, of_option, bind, ret, raise.
  rewrite (gains_map N _ Hlen). simpl.
  destruct (deltas N _ _) as [ds|]; simpl; [|discriminate].
  destruct N as [|n]; simpl; [discriminate|].
  destruct (total_loss ds (agent w)) as [|loss]; simpl; [discriminate|].
  destruct (requires_grad loss); simpl; [|discriminate].
  intros H; injection H as H. rewrite <- H. reflexivity.
Qed.

(** C8. An episode begins with empty buffers.  When its rollout hands
    over to [learn], whether it ran the full horizon or broke off at
    ruin, [reward_memory] has [N+1] entries and [value_memory] has [N],
    so that [reward_memory[k+1]] and [value_memory[j]] exist for all
    [k, j < N] and the two loops of [learn] over them raise no index
    error.  With networks that accept the states and [N >= 1] the
    rollout does reach that point. *)
Theorem C8_buffers_full_at_learn (w : World) :
  fresh (agent w) ->
  (forall l w', rollout N w = Some (l, w') ->
     length (reward_memory (agent w')) = N + 1 /\
     length (value_memory (agent w')) = N /\
     (forall k, k < N -> nth_error (reward_memory (agent w')) (k + 1) <> None) /\
     (forall j, j < N -> nth_error (value_memory (agent w')) j <> None) /\
     exists G ds, gains N (reward_memory (agent w')) = Some G /\
                  deltas N G (value_memory (agent w')) = Some ds) /\
  (0 < N -> nets_accept (agent w) -> exists l w', rollout N w = Some (l, w')).
Proof.
  intros Hf. split.
  - intros l w' Hr.
    destruct (rollout_lengths l w w' Hf Hr) as (HN & Hlr & Hlv & _).
    split; [exact Hlr|]. split; [exact Hlv|].
    split; [intros k Hk; apply nth_error_Some; lia|].
    split; [intros j Hj; apply nth_error_Some; lia|].
    destruct (learn_loss_defined N (agent w') HN Hlr Hlv)
      as (G & ds & t & HG & _ & Hds & _).
    exists G, ds. split; assumption.
  - intros HN Hacc. apply rollout_defined; assumption.
Qed.

(** C6. After ruin at a step [i < N-1], [action_memory] holds [i+1]
    log-probabilities and no padding, so the policy loss that [learn]
    builds with [zip] is the sum over [j = 0..i] only; the value loss
    does run over the padded value tensors, but [backward()] sends
    them nothing: the graph receives what it would receive from the
    first [i+1] value estimates alone. *)
Theorem C6_policy_loss_stops_at_ruin (i : nat) (l : Locals) (w w' : World) :
  fresh (agent w) ->
  rollout N w = Some (l, w') ->
  ruined_at i l ->
  i < N - 1 ->
  length (action_memory (agent w')) = i + 1 /\
  exists G ds,
    gains N (reward_memory (agent w')) = Some G /\
    deltas N G (value_memory (agent w')) = Some ds /\
    length ds = N /\
    sums_range_over (i + 1) ds (action_memory (agent w'))
      (weighted_loss ds (action_memory (agent w'))) /\
    loss_backward (weighted_loss ds (value_memory (agent w')))
    = loss_backward (weighted_loss ds (firstn (i + 1) (value_memory (agent w')))).
Proof.
  intros Hf Hr Hruin Hi.
  destruct (rollout_lengths l w w' Hf Hr) as (HN & Hlr & Hlv & _).
  destruct (ruin_padding i l w w' Hf Hr Hruin) as (_ & _ & Ham & vs & Hlvs & Hvm).
  split; [exact Ham|].
  destruct (learn_loss_defined N (agent w') HN Hlr Hlv)
    as (G & ds & t & HG & _ & Hds & Hlds & _).
  exists G, ds.
  repeat (split; [assumption|]).
  split.
  - replace (i + 1) with (Nat.min (length ds) (length (action_memory (agent w'))))
      by lia.
    apply weighted_loss_range.
  - rewrite Hvm, firstn_app, Hlvs, Nat.sub_diag, firstn_all2 by lia.
    simpl. rewrite app_nil_r.
    rewrite !loss_backward_weighted. apply backward_padding.
Qed.

(** C2 (amended). For every episode, [learn] computes
    [delta(j) = G[j] - value_memory[j].item()] for [j < N] and calls
    [backward()] on the sum of a value loss and a policy loss; the
    value loss is the sum of [-delta(j) * value_memory[j]] over all
    [j < N], the stored tensors themselves being scaled, and the
    policy loss is the sum of [-delta(j) * action_memory[j]] over the
    steps that ran, as many as [action_memory] has entries, which are
    all [N] steps when the episode did not end at wealth 0. *)
Theorem C2_loss_of_an_episode (l : Locals) (w w' : World) :
  fresh (agent w) ->
  rollout N w = Some (l, w') ->
  learn_sums N N (length (episode_wealths l)) (agent w') /\
  length (action_memory (agent w')) = length (episode_wealths l) /\
  ((curr_wealth l =? zero)%num = false -> length (episode_wealths l) = N).
Proof.
  intros Hf Hr.
  destruct (rollout_lengths l w w' Hf Hr) as (HN & Hlr & Hlv & Hla & Hk & Hfull).
  split; [|split; [exact Hla | exact Hfull]].
  destruct (learn_loss_defined N (agent w') HN Hlr Hlv)
    as (G & ds & t & HG & HlG & Hds & Hlds & Hdelta & Hloss & Hlearn).
  exists G, ds.
  repeat (split; [assumption|]).
  exists (weighted_loss ds (value_memory (agent w'))),
         (weighted_loss ds (action_memory (agent w'))), t.
  split; [|split; [|split]].
  - replace N with (Nat.min (length ds) (length (value_memory (agent w'))))
      at 1 by lia.
    apply weighted_loss_range.
  - replace (length (episode_wealths l))
      with (Nat.min (length ds) (length (action_memory (agent w')))) by lia.
    apply weighted_loss_range.
  - exact Hlearn.
  - symmetry. exact Hloss.
Qed.

End Episodes.

(** ** The utility of a ruined episode, in binary64 *)

Section RuinBinary64.

#[local] Existing Instance b64.
Context {L : Library b64}.

(** [x ** 0.5] is [+0.0] for both zeros: the exponent is neither zero
    nor an odd integer, so the interpreter answers without the C
    library. *)
Lemma util_of_zero (x : B64.float) :
  SFeqb x zero = true -> util x = zero.
Proof.
  destruct x as [s|s| |s m e]; intros H.
  - destruct s; vm_compute; reflexivity.
  - destruct s; vm_compute in H; discriminate.
  - vm_compute in H; discriminate.
  - destruct s; vm_compute in H; discriminate.
Qed.

(** C3. In an episode in which wealth reaches 0 at a step [i < N-1],
    the rewards and value estimates stored for the steps [i+1 .. N-1]
    are exactly 0, and the terminal reward appended after the loop is
    [util(0)], that is [0 ** gamma], which is 0. *)
Theorem C3_zero_padding_after_ruin (N i : nat) (l : Locals) (w w' : World) :
  fresh (agent w) ->
  rollout N w = Some (l, w') ->
  ruined_at i l ->
  i < N - 1 ->
  (forall k, i < k -> k < N ->
     nth_error (reward_memory (agent w')) k = Some zero /\
     nth_error (value_memory (agent w')) k = Some (Lit zero) /\
     option_map item (nth_error (value_memory (agent w')) k) = Some zero) /\
  nth_error (reward_memory (agent w')) N = Some (util zero) /\
  util zero = zero.
Proof.
  intros Hf Hr Hruin Hi.
  destruct (ruin_padding N i l w w' Hf Hr Hruin) as (Hpad & Hterm & _).
  destruct Hruin as (_ & Hz).
  assert (H0 : util zero = zero) by (apply util_of_zero; reflexivity).
  split; [|split].
  - intros k Hik HkN. destruct (Hpad k Hik HkN) as (Hrw & Hv).
    split; [exact Hrw|]. split; [exact Hv|]. rewrite Hv. reflexivity.
  - rewrite Hterm, H0. f_equal. apply util_of_zero. exact Hz.
  - exact H0.
Qed.

End RuinBinary64.

(** ** The transition and the action choice *)

Section Effects.

Context {F : Scalar} {L : Library F}.

(** C5. [wealth(x, a)] returns [x + sigma*a*(rho*dt + sqrt(dt)*Z)]
    where [Z] is the next draw of numpy's generator; the call takes
    that one draw and changes nothing else, and its result depends on
    the state of the process through that draw alone. *)
Theorem C5_wealth_one_draw (x a : num) (w : World) :
  wealth x a w
  = Some ((x + sigma * a
               * (rho * dt + np_sqrt dt * draws (np_random w) (pos (np_random w))))%num,
          {| agent := agent w;
             np_random := {| draws := draws (np_random w);
                             pos := S (pos (np_random w)) |};
             torch_random := torch_random w;
             episode_scores := episode_scores w;
             episode_values := episode_values w |}) /\
  forall w2 : World,
    draws (np_random w2) (pos (np_random w2))
    = draws (np_random w) (pos (np_random w)) ->
    option_map fst (wealth x a w2) = option_map fst (wealth x a w).
Proof.
  split; [reflexivity|].
  intros w2 Hz. unfold wealth, np_draw, next, bind, ret. simpl.
  rewrite Hz. reflexivity.
Qed.

(** What a call of [choose_action] returns and what it changes. *)
Lemma choose_action_inv (x t a : num) (w w' : World) :
  choose_action x t w = Some (a, w') ->
  exists m s,
    policy_forward (policy (agent w)) [x; (T - t)%num] = Some (m, s) /\
    a = normal_sample m s (draws (torch_random w) (pos (torch_random w))) /\
    action_memory (agent w')
      = action_memory (agent w)
        ++ [Node (OLogProb a) x (T - t)%num (normal_log_prob m s a)] /\
    mean (agent w') = Some (Node OMean x (T - t)%num m) /\
    sd (agent w') = Some (Node OSd x (T - t)%num s) /\
    reward (agent w') = Some (lam * normal_entropy s)%num /\
    torch_random w' = snd (next (torch_random w)) /\
    policy (agent w') = policy (agent w) /\
    value (agent w') = value (agent w) /\
    reward_memory (agent w') = reward_memory (agent w) /\
    value_memory (agent w') = value_memory (agent w) /\
    mean_memory (agent w') = mean_memory (agent w) /\
    sd_memory (agent w') = sd_memory (agent w) /\
    score (agent w') = score (agent w) /\
    np_random w' = np_random w /\
    episode_scores w' = episode_scores w /\
    episode_values w' = episode_values w.
Proof.
  unfold choose_action, get_agent, put_agent, of_option, torch_draw, next,
    bind, ret, raise.
  simpl.
  destruct (policy_forward _ _) as [[m s]|]; simpl; [|discriminate].
  intros H; injection H as <- <-.
  exists m, s. simpl. repeat split.
Qed.

(** C7 (amended). [choose_action] returns the sampled action alone.
    It appends the action's log-probability to [action_memory], assigns
    the attributes [mean], [sd] and [reward] of the agent, and takes
    one draw from torch's generator; the networks, the other buffers,
    the score, numpy's generator and the histories are as before. *)
Theorem C7_choose_action_effects (x t a : num) (w w' : World) :
  choose_action x t w = Some (a, w') ->
  exists m s,
    policy_forward (policy (agent w)) [x; (T - t)%num] = Some (m, s) /\
    a = normal_sample m s (draws (torch_random w) (pos (torch_random w))) /\
    action_memory (agent w')
      = action_memory (agent w)
        ++ [Node (OLogProb a) x (T - t)%num (normal_log_prob m s a)] /\
    mean (agent w') = Some (Node OMean x (T - t)%num m) /\
    sd (agent w') = Some (Node OSd x (T - t)%num s) /\
    reward (agent w') = Some (lam * normal_entropy s)%num /\
    torch_random w' = snd (next (torch_random w)) /\
    policy (agent w') = policy (agent w) /\
    value (agent w') = value (agent w) /\
    reward_memory (agent w') = reward_memory (agent w) /\
    value_memory (agent w') = value_memory (agent w) /\
    mean_memory (agent w') = mean_memory (agent w) /\
    sd_memory (agent w') = sd_memory (agent w) /\
    score (agent w') = score (agent w) /\
    np_random w' = np_random w /\
    episode_scores w' = episode_scores w /\
    episode_values w' = episode_values w.
Proof. apply choose_action_inv. Qed.

End Effects.

(** ** Determinism of the rollout *)

Section Determinism.

Context {F : Scalar} {L : Library F}.
Variable N : nat.

Lemma agree_next (n : nat) (g1 g2 : rng) :
  agree (S n) g1 g2 ->
  draws g1 (pos g1) = draws g2 (pos g2) /\
  agree n (snd (next g1)) (snd (next g2)).
Proof.
  intros (Hpos & Hd). split.
  - specialize (Hd 0). rewrite !Nat.add_0_r in Hd. apply Hd. lia.
  - split; simpl.
    + congruence.
    + intros k Hk. specialize (Hd (S k)).
      rewrite !Nat.add_succ_r in Hd. apply Hd. lia.
Qed.

Lemma agree_le (n n' : nat) (g1 g2 : rng) :
  n' <= n -> agree n g1 g2 -> agree n' g1 g2.
Proof.
  intros Hle (Hpos & Hd). split; [exact Hpos|].
  intros k Hk. apply Hd. lia.
Qed.

Lemma same_run_le (n m n' m' : nat) (w1 w2 : World) :
  n' <= n -> m' <= m -> same_run n m w1 w2 -> same_run n' m' w1 w2.
Proof.
  intros Hn Hm (Ha & Hnp & Ht).
  split; [exact Ha|]. split; eapply agree_le; eassumption.
Qed.

Lemma lockstep_ret (A : Type) (n m : nat) (a : A) :
  lockstep n m n m (ret a).
Proof. intros w1 w2 Hs. simpl. split; [reflexivity | exact Hs]. Qed.

Lemma lockstep_raise (A : Type) (n m n' m' : nat) :
  lockstep n m n' m' (@raise _ A).
Proof. intros w1 w2 Hs. exact I. Qed.

Lemma lockstep_of_option (A : Type) (n m : nat) (o : option A) :
  lockstep n m n m (of_option o).
Proof. destruct o; [apply lockstep_ret | apply lockstep_raise]. Qed.

Lemma lockstep_bind (A B : Type) (n m n1 m1 n2 m2 : nat)
  (c : M A) (k : A -> M B) :
  lockstep n m n1 m1 c ->
  (forall a, lockstep n1 m1 n2 m2 (k a)) ->
  lockstep n m n2 m2 (bind c k).
Proof.
  intros Hc Hk w1 w2 Hs. specialize (Hc w1 w2 Hs). unfold bind.
  destruct (c w1) as [[a1 w1']|]; destruct (c w2) as [[a2 w2']|];
    try contradiction; [|exact I].
  destruct Hc as (<- & Hs'). apply Hk. exact Hs'.
Qed.

Lemma lockstep_weaken (A : Type) (n m n1 m1 n' m' n1' m1' : nat) (c : M A) :
  n <= n' -> m <= m' -> n1' <= n1 -> m1' <= m1 ->
  lockstep n m n1 m1 c -> lockstep n' m' n1' m1' c.
Proof.
  intros Hn Hm Hn1 Hm1 Hc w1 w2 Hs.
  specialize (Hc w1 w2 (same_run_le n' m' n m w1 w2 Hn Hm Hs)).
  destruct (c w1) as [[a1 w1']|]; destruct (c w2) as [[a2 w2']|];
    try contradiction; [|exact I].
  destruct Hc as (Ha & Hs'). split; [exact Ha|].
  eapply same_run_le; eassumption.
Qed.

Lemma lockstep_get_agent (n m : nat) : lockstep n m n m get_agent.
Proof. intros w1 w2 Hs. simpl. split; [apply Hs | exact Hs]. Qed.

Lemma lockstep_put_agent (n m : nat) (a : Agent) :
  lockstep n m n m (put_agent a).
Proof.
  intros w1 w2 (Ha & Hnp & Ht). simpl. split; [reflexivity|].
  split; [reflexivity | split; assumption].
Qed.

Lemma lockstep_np_draw (n m : nat) : lockstep (S n) m n m np_draw.
Proof.
  intros w1 w2 (Ha & Hnp & Ht).
  apply agree_next in Hnp. destruct Hnp as (Hz & Hnp).
  unfold np_draw. simpl. split; [exact Hz|].
  split; [exact Ha | split; assumption].
Qed.

Lemma lockstep_torch_draw (n m : nat) :
  lockstep n (S m) n m torch_draw.
Proof.
  intros w1 w2 (Ha & Hnp & Ht).
  apply agree_next in Ht. destruct Ht as (Hz & Ht).
  unfold torch_draw. simpl. split; [exact Hz|].
  split; [exact Ha | split; assumption].
Qed.

Lemma lockstep_append_episode_values (n m : nat) (v : num) :
  lockstep n m n m (append_episode_values v).
Proof.
  intros w1 w2 Hs. simpl. split; [reflexivity | exact Hs].
Qed.

Create HintDb lockstep.

#[local] Hint Resolve lockstep_ret lockstep_raise lockstep_of_option
  lockstep_get_agent lockstep_put_agent lockstep_np_draw lockstep_torch_draw
  lockstep_append_episode_values : lockstep.

Ltac lockstep_seq :=
  repeat first
    [ eapply lockstep_bind; [solve [eauto with lockstep]|]; intros ?
    | solve [eauto with lockstep] ].

Lemma lockstep_store_value (n m : nat) (v : tensor) :
  lockstep n m n m (store_value v).
Proof. unfold store_value. lockstep_seq. Qed.

Lemma lockstep_store_rewards (n m : nat) (x : num) :
  lockstep n m n m (store_rewards x).
Proof. unfold store_rewards. lockstep_seq. Qed.

Lemma lockstep_store_means (n m : nat) (x : num) :
  lockstep n m n m (store_means x).
Proof. unfold store_means. lockstep_seq. Qed.

Lemma lockstep_store_sds (n m : nat) (x : num) :
  lockstep n m n m (store_sds x).
Proof. unfold store_sds. lockstep_seq. Qed.

Lemma lockstep_get_value (n m : nat) (x t : num) :
  lockstep n m n m (get_value x t).
Proof. unfold get_value. lockstep_seq. Qed.

Lemma lockstep_choose_action (n m : nat) (x t : num) :
  lockstep n (S m) n m (choose_action x t).
Proof. unfold choose_action. lockstep_seq. Qed.

Lemma lockstep_wealth (n m : nat) (x a : num) :
  lockstep (S n) m n m (wealth x a).
Proof. unfold wealth. lockstep_seq. Qed.

Lemma lockstep_np_uniform (n m : nat) (lo hi : num) :
  lockstep (S n) m n m (np_uniform lo hi).
Proof. unfold np_uniform. lockstep_seq. Qed.

#[local] Hint Resolve lockstep_store_value lockstep_store_rewards lockstep_store_means
  lockstep_store_sds lockstep_get_value lockstep_choose_action
  lockstep_wealth lockstep_np_uniform : lockstep.

Lemma lockstep_pad (n m p : nat) : lockstep n m n m (pad p).
Proof. induction p as [|p IH]; simpl; lockstep_seq. Qed.

#[local] Hint Resolve lockstep_pad : lockstep.

(** One pass through the loop body takes one draw from each
    generator. *)
Lemma lockstep_step (n m i : nat) (l : Locals) :
  lockstep (S n) (S m) n m (step N i l).
Proof.
  unfold step.
  eapply lockstep_bind; [apply lockstep_get_value|]; intros v.
  eapply lockstep_bind; [apply lockstep_store_value|]; intros _.
  eapply lockstep_bind; [apply lockstep_choose_action|]; intros action.
  eapply lockstep_bind; [apply lockstep_get_agent|]; intros a.
  eapply lockstep_bind; [apply lockstep_of_option|]; intros rw.
  eapply lockstep_bind; [apply lockstep_store_rewards|]; intros _.
  eapply lockstep_bind; [apply lockstep_wealth|]; intros w'.
  eapply lockstep_bind with (n1 := n) (m1 := m).
  - destruct (i =? 0)%nat; lockstep_seq.
  - intros _.
    match goal with
    | |- context [if ?c then _ else _] => destruct c
    end; lockstep_seq.
Qed.

Lemma lockstep_loop (steps : list nat) (l : Locals) (n m : nat) :
  lockstep (length steps + n) (length steps + m) n m (loop N steps l).
Proof.
  revert l. induction steps as [|i steps IH]; intros l; simpl.
  - apply lockstep_ret.
  - eapply lockstep_bind; [apply lockstep_step|]. intros [l1 b]. simpl.
    destruct b.
    + apply (lockstep_weaken _ n m n m (length steps + n) (length steps + m) n m);
        try lia.
      apply lockstep_ret.
    + apply IH.
Qed.

Lemma lockstep_rollout : lockstep (N + 1) N 0 0 (rollout N).
Proof.
  unfold rollout.
  replace (N + 1) with (S (length (seq 0 N) + 0))
    by (rewrite length_seq; lia).
  replace N with (length (seq 0 N) + 0) at 2
    by (rewrite length_seq; lia).
  eapply lockstep_bind; [apply lockstep_np_uniform|]; intros x.
  eapply lockstep_bind.
  - apply (lockstep_loop (seq 0 N) _ 0 0).
  - intros l. lockstep_seq.
Qed.

(** C9. Two runs of one rollout that start from the same agent (the
    same network parameters and buffers) and whose generators give the
    same pseudo-random draws, [N+1] from numpy and [N] from torch,
    produce the same trajectory: either both stop with an error or
    both end with the same initial wealth, wealths, actions, rewards,
    value estimates and log-probabilities, and with their generators
    at the same positions. *)
Theorem C9_rollout_deterministic (w1 w2 : World) :
  agent w1 = agent w2 ->
  agree (N + 1) (np_random w1) (np_random w2) ->
  agree N (torch_random w1) (torch_random w2) ->
  trajectory (rollout N w1) = trajectory (rollout N w2) /\
  option_map (fun lw => (pos (np_random (snd lw)), pos (torch_random (snd lw))))
             (rollout N w1)
  = option_map (fun lw => (pos (np_random (snd lw)), pos (torch_random (snd lw))))
               (rollout N w2).
Proof.
  intros Ha Hnp Ht.
  pose proof (lockstep_rollout w1 w2 (conj Ha (conj Hnp Ht))) as H.
  destruct (rollout N w1) as [[l1 w1']|];
    destruct (rollout N w2) as [[l2 w2']|]; try contradiction;
    [|split; reflexivity].
  destruct H as (<- & Ha' & (Hp1 & _) & (Hp2 & _)).
  unfold trajectory. simpl. rewrite Ha', Hp1, Hp2. split; reflexivity.
Qed.

End Determinism.

(** ** The scale of the policy, over the reals *)

Section ScalePositive.

#[local] Existing Instance Rs.
#[local] Existing Instance Rlib.

Open Scope R_scope.

(** Softplus is positive: above the threshold it is its argument,
    which exceeds 20, and elsewhere it is the logarithm of a number
    above 1. *)
Lemma softplus_pos (x : R) : 0 < softplus x.
Proof.
  unfold softplus. cbn. unfold RealScalar.ltb.
  destruct (Rlt_dec 20 x) as [Hx|Hx].
  - lra.
  - rewrite <- ln_1. apply ln_increasing; [lra|].
    pose proof (exp_pos x). unfold one. cbn. lra.
Qed.

Lemma policy_forward_scale (net : PolicyNetwork) (obs : list R) (m s : R) :
  policy_forward net obs = Some (m, s) -> 0 < s.
Proof.
  unfold policy_forward, obind.
  destruct (apply_linear (p_fc1 net) obs) as [h1|]; [|discriminate].
  destruct (apply_linear (p_fc2 net) _) as [h2|]; [|discriminate].
  destruct (apply_linear (p_fc3 net) _) as [[|first_slice [|second_slice rest]]|];
    try discriminate.
  intros H; injection H as _ <-. apply softplus_pos.
Qed.

(** Over the reals: the scale is positive, a network of the agent's
    shapes returns one, and it is the standard deviation that
    [choose_action] gives its Normal distribution. *)
Lemma scale_positive_real (net : PolicyNetwork) (x tt : R) :
  (forall m s, policy_forward net [x; tt] = Some (m, s) -> 0 < s) /\
  (forall l1_size l2_size, policy_shape l1_size l2_size net ->
     exists m s, policy_forward net [x; tt] = Some (m, s) /\ 0 < s) /\
  (forall (w w' : World) (t a : R),
     policy (agent w) = net -> (T - t)%num = tt ->
     choose_action x t w = Some (a, w') ->
     exists m s, policy_forward net [x; tt] = Some (m, s) /\
                 sd (agent w') = Some (Node OSd x tt s) /\
                 a = normal_sample m s (draws (torch_random w) (pos (torch_random w))) /\
                 0 < s).
Proof.
  split; [|split].
  - intros m s. apply policy_forward_scale.
  - intros l1_size l2_size Hshape.
    destruct (@policy_forward_defined Rs Rlib l1_size l2_size net x tt Hshape)
      as ([m s] & Hf).
    exists m, s. split; [exact Hf|]. eapply policy_forward_scale; exact Hf.
  - intros w w' t a Hnet Htt Hc.
    destruct (@choose_action_inv Rs Rlib x t a w w' Hc)
      as (m & s & Hf & Ha & _ & _ & Hsd & _).
    rewrite Hnet, Htt in Hf. rewrite Htt in Hsd.
    exists m, s. repeat split; try assumption.
    eapply policy_forward_scale; exact Hf.
Qed.

(** Over the reals too the utility of wealth 0 is 0. *)
Lemma util_of_zero_real : util 0 = 0.
Proof.
  unfold util, py_pow, is_odd_integer, gamma, dec, zero. cbn.
  unfold RealScalar.eqb, RealScalar.ltb, RealScalar.floor.
  destruct (Req_dec_T (5 / 10) 0) as [H|_]; [lra|].
  destruct (Req_dec_T 0 0) as [_|H]; [|lra].
  destruct (Rlt_dec 0 (5 / 10)) as [_|H]; [|lra].
  cbn.
  destruct (Req_dec_T (IZR (Int_part (5 / 10))) (5 / 10)) as [H|_];
    [|reflexivity].
  exfalso.
  assert (H2 : IZR (2 * Int_part (5 / 10)) = IZR 1)
    by (rewrite mult_IZR, H; lra).
  apply eq_IZR in H2. lia.
Qed.

(** The constants over the reals. *)
Lemma rho_real : @rho Rs = 8 / 10.
Proof. unfold rho, mu, r, sigma, dec. cbn. field. Qed.

Lemma true_mean_real (x : R) : @true_mean Rs x = 16 * x.
Proof.
  unfold true_mean. rewrite rho_real. unfold sigma, gamma, dec. cbn. field.
Qed.

End ScalePositive.

(** ** The scale of the policy, in floating point *)

(** In binary64, with any library whose [exp] underflows to 0 at
    -1000 and whose [log] is 0 at 1, as the C library's are: the
    network with zero weights and the biases 16 and -1000 in [fc3]
    returns the scale 0 in every finite state. *)
Section ScaleUnderflow64.

#[local] Existing Instance b64.
Context {L : Library b64}.

Lemma softplus_underflow_b64 :
  t_exp (of_Z (-1000)) = zero -> t_log one = zero ->
  softplus (of_Z (-1000)) = zero.
Proof.
  intros exp_underflows log_of_one. unfold softplus.
  change ((of_Z 20 <? of_Z (-1000))%num) with false. cbv iota.
  rewrite exp_underflows. change (one + zero)%num with (@one b64).
  exact log_of_one.
Qed.

Lemma scale_underflow_b64 (x tt : B64.float) :
  t_exp (of_Z (-1000)) = zero -> t_log one = zero ->
  is_finite x = true -> is_finite tt = true ->
  policy_forward (constant_policy (of_Z 16) (of_Z (-1000))) [x; tt]
  = Some (of_Z 16, zero).
Proof.
  intros He Hl Hx Ht. rewrite <- (softplus_underflow_b64 He Hl).
  destruct x as [sx|sx| |sx mx ex]; try discriminate;
    destruct tt as [st|st| |st mt et]; try discriminate;
    destruct sx, st; reflexivity.
Qed.

End ScaleUnderflow64.

(** The same in float32, the type in which torch evaluates the
    network. *)
Section ScaleUnderflow32.

#[local] Existing Instance b32.
Context {L : Library b32}.

Lemma softplus_underflow_b32 :
  t_exp (of_Z (-1000)) = zero -> t_log one = zero ->
  softplus (of_Z (-1000)) = zero.
Proof.
  intros exp_underflows log_of_one. unfold softplus.
  change ((of_Z 20 <? of_Z (-1000))%num) with false. cbv iota.
  rewrite exp_underflows. change (one + zero)%num with (@one b32).
  exact log_of_one.
Qed.

Lemma scale_underflow_b32 (x tt : spec_float) :
  t_exp (of_Z (-1000)) = zero -> t_log one = zero ->
  is_finite x = true -> is_finite tt = true ->
  policy_forward (constant_policy (of_Z 16) (of_Z (-1000))) [x; tt]
  = Some (of_Z 16, zero).
Proof.
  intros He Hl Hx Ht. rewrite <- (softplus_underflow_b32 He Hl).
  destruct x as [sx|sx| |sx mx ex]; try discriminate;
    destruct tt as [st|st| |st mt et]; try discriminate;
    destruct sx, st; reflexivity.
Qed.

End ScaleUnderflow32.

(** The approximations of [Demo.lib] give at these two points what the
    C library gives: [exp(-1000)] underflows to 0 and [log(1)] is 0. *)
Lemma demo_exp_underflows :
  @t_exp b64 Demo.lib (@of_Z b64 (-1000)) = @zero b64 /\
  @t_log b64 Demo.lib (@one b64) = @zero b64.
Proof. split; vm_compute; reflexivity. Qed.

Lemma demo32_exp_underflows :
  @t_exp b32 Demo32.lib (@of_Z b32 (-1000)) = @zero b32 /\
  @t_log b32 Demo32.lib (@one b32) = @zero b32.
Proof. split; vm_compute; reflexivity. Qed.

(** The scale is not positive in every finite state: with finite
    weights, zero everywhere but for the biases 16 and -1000 of [fc3],
    and in the finite state [(0.75, T)], the scale that
    [PolicyNetwork.forward] returns in binary64 is 0, which is not
    greater than 0. *)
Lemma scale_not_always_positive_b64 :
  ~ (forall (net : PolicyNetwork (F := b64)) (x tt m s : B64.float),
       is_finite x = true -> is_finite tt = true ->
       @policy_forward b64 Demo.lib net [x; tt] = Some (m, s) ->
       @fltb b64 (@zero b64) s = true).
Proof.
  intros H.
  specialize (H (@constant_policy b64 (@of_Z b64 16) (@of_Z b64 (-1000)))
                (@dec b64 75 100) (@T b64) (@of_Z b64 16) (@zero b64)
                eq_refl eq_refl
                (@scale_underflow_b64 Demo.lib (@dec b64 75 100) (@T b64)
                   (proj1 demo_exp_underflows)
                   (proj2 demo_exp_underflows) eq_refl eq_refl)).
  vm_compute in H. discriminate H.
Qed.

Section ScaleClaim.

#[local] Existing Instance Rs.
#[local] Existing Instance Rlib.

(** C4.  The claim is what the source intends (line 68: softplus is
    there to make the standard deviation positive) and what holds of
    the real-number reading: there the scale that
    [PolicyNetwork.forward] returns, the second output passed through
    softplus, is strictly positive whatever the parameters of the
    network and the state; a network of the shapes the agent builds
    does return one; and the standard deviation with which
    [choose_action] builds its Normal distribution, kept in
    [agent.sd], is that scale, with no clamp in between.  The code
    misses it in floating point, binary64 or torch's float32: with
    any library whose [exp] underflows to 0 at -1000 and whose [log]
    is 0 at 1, the network with zero weights and the biases 16 and
    -1000 in [fc3] returns the scale 0 in every finite state, 0 is not
    greater than 0, and a call of [choose_action] that returns leaves
    the standard deviation 0 in [agent.sd]. *)
Theorem C4_scale_of_the_policy :
  (forall (net : PolicyNetwork (F := Rs)) (x tt : R),
     (forall m s, @policy_forward Rs Rlib net [x; tt] = Some (m, s) ->
        (0 < s)%R) /\
     (forall l1_size l2_size, policy_shape l1_size l2_size net ->
        exists m s, @policy_forward Rs Rlib net [x; tt] = Some (m, s) /\
                    (0 < s)%R) /\
     (forall (w w' : World (F := Rs)) (t a : R),
        policy (agent w) = net -> @fsub Rs (@T Rs) t = tt ->
        @choose_action Rs Rlib x t w = Some (a, w') ->
        exists m s, @policy_forward Rs Rlib net [x; tt] = Some (m, s) /\
                    sd (agent w') = Some (Node OSd x tt s) /\
                    a = normal_sample m s
                          (draws (torch_random w) (pos (torch_random w))) /\
                    (0 < s)%R)) /\
  (forall L : Library b64,
     @t_exp b64 L (@of_Z b64 (-1000)) = @zero b64 ->
     @t_log b64 L (@one b64) = @zero b64 ->
     forall x t : B64.float,
       is_finite x = true -> is_finite (@fsub b64 (@T b64) t) = true ->
       @policy_forward b64 L
         (@constant_policy b64 (@of_Z b64 16) (@of_Z b64 (-1000)))
         [x; @fsub b64 (@T b64) t]
       = Some (@of_Z b64 16, @zero b64) /\
       @fltb b64 (@zero b64) (@zero b64) = false /\
       forall (w w' : World (F := b64)) (a : B64.float),
         policy (agent w)
         = @constant_policy b64 (@of_Z b64 16) (@of_Z b64 (-1000)) ->
         @choose_action b64 L x t w = Some (a, w') ->
         sd (agent w')
         = Some (@Node b64 OSd x (@fsub b64 (@T b64) t) (@zero b64))) /\
  (forall L : Library b32,
     @t_exp b32 L (@of_Z b32 (-1000)) = @zero b32 ->
     @t_log b32 L (@one b32) = @zero b32 ->
     forall x t : spec_float,
       is_finite x = true -> is_finite (@fsub b32 (@T b32) t) = true ->
       @policy_forward b32 L
         (@constant_policy b32 (@of_Z b32 16) (@of_Z b32 (-1000)))
         [x; @fsub b32 (@T b32) t]
       = Some (@of_Z b32 16, @zero b32) /\
       @fltb b32 (@zero b32) (@zero b32) = false /\
       forall (w w' : World (F := b32)) (a : spec_float),
         policy (agent w)
         = @constant_policy b32 (@of_Z b32 16) (@of_Z b32 (-1000)) ->
         @choose_action b32 L x t w = Some (a, w') ->
         sd (agent w')
         = Some (@Node b32 OSd x (@fsub b32 (@T b32) t) (@zero b32))).
Proof.
  split; [exact scale_positive_real|]. split.
  - intros L He Hl x t Hx Ht.
    pose proof (@scale_underflow_b64 L x _ He Hl Hx Ht) as Hf.
    split; [exact Hf|]. split; [reflexivity|].
    intros w w' a Hnet Hc.
    destruct (@choose_action_inv b64 L x t a w w' Hc)
      as (m & s & Hf' & _ & _ & _ & Hsd & _).
    rewrite Hnet in Hf'.
    assert (Hs : Some (m, s) = Some (@of_Z b64 16, @zero b64))
      by (rewrite <- Hf'; exact Hf).
    injection Hs as _ Hs. rewrite Hsd, Hs. reflexivity.
  - intros L He Hl x t Hx Ht.
    pose proof (@scale_underflow_b32 L x _ He Hl Hx Ht) as Hf.
    split; [exact Hf|]. split; [reflexivity|].
    intros w w' a Hnet Hc.
    destruct (@choose_action_inv b32 L x t a w w' Hc)
      as (m & s & Hf' & _ & _ & _ & Hsd & _).
    rewrite Hnet in Hf'.
    assert (Hs : Some (m, s) = Some (@of_Z b32 16, @zero b32))
      by (rewrite <- Hf'; exact Hf).
    injection Hs as _ Hs. rewrite Hsd, Hs. reflexivity.
Qed.

End ScaleClaim.

(** ** The constants in binary64 *)

(** The literals are the floats that [float.hex] prints for them:
    [0.1] is [0x1.999999999999ap-4], [0.02] is [0x1.47ae147ae147bp-6]
    and [0.5] is [0x1p-1]. *)
Example literals_b64 :
  @mu b64 = S754_finite false 0x1999999999999a (-56) /\
  @r b64 = S754_finite false 0x147ae147ae147b (-58) /\
  @gamma b64 = S754_finite false 0x10000000000000 (-53).
Proof. vm_compute. repeat split. Qed.

(** [mu - r] is the float [0.08], [0x1.47ae147ae147bp-4], and dividing
    it by [0.1] rounds to [0x1.9999999999999p-1], one unit in the last
    place below the float [0.8], [0x1.999999999999ap-1]. *)
Example mu_minus_r_b64 :
  @fsub b64 (@mu b64) (@r b64) = S754_finite false 0x147ae147ae147b (-56).
Proof. vm_compute. reflexivity. Qed.

Lemma rho_b64_value :
  @rho b64 = S754_finite false 0x19999999999999 (-53).
Proof. vm_compute. reflexivity. Qed.

Lemma point8_b64_value :
  @dec b64 8 10 = S754_finite false 0x1999999999999a (-53).
Proof. vm_compute. reflexivity. Qed.

Lemma true_mean_1_b64_value :
  @true_mean b64 (@of_Z b64 1) = S754_finite false 0x1fffffffffffff (-49).
Proof. vm_compute. reflexivity. Qed.

(** C10 as stated fails on the interpreter's numbers: the computed
    [rho] does not compare equal to the float [0.8], nor
    [true_mean(1)] to [16]. *)
Lemma C10_counterexample :
  ~ (@feqb b64 (@rho b64) (@dec b64 8 10) = true /\
     @feqb b64 (@true_mean b64 (@of_Z b64 1)) (@of_Z b64 16) = true).
Proof. vm_compute. intros [H _]. discriminate. Qed.

(** C10 (amended). With [mu = 0.1], [sigma = 0.1], [r = 0.02] and
    [gamma = 0.5] read as real numbers, [rho = (mu - r)/sigma] is 0.8
    and [true_mean(x) = (rho*x)/(sigma*(1-gamma))] is [16*x], so
    [true_mean(1) = 16].  In the binary64 arithmetic of the program
    the two computed values are the floats next below: [rho] is the
    predecessor of the float 0.8 and [true_mean(1)] the predecessor
    of 16. *)
Theorem C10_sharpe_ratio_and_true_mean :
  (@rho Rs = (8 / 10)%R /\
   (forall x : R, @true_mean Rs x = (16 * x)%R) /\
   @true_mean Rs 1%R = 16%R) /\
  (@rho b64 = SFpred B64.prec B64.emax (@dec b64 8 10) /\
   @true_mean b64 (@of_Z b64 1) = SFpred B64.prec B64.emax (@of_Z b64 16)).
Proof.
  split.
  - split; [apply rho_real|]. split; [apply true_mean_real|].
    rewrite true_mean_real. lra.
  - vm_compute. split; reflexivity.
Qed.

(** ** The properties on concrete episodes *)

Section Concrete.

#[local] Existing Instance b64.
#[local] Existing Instance Demo.lib.

Lemma demo_fresh (np : nat -> B64.float) : fresh (agent (Demo.world np)).
Proof. repeat split. Qed.

Lemma demo_accept (np : nat -> B64.float) : nets_accept (agent (Demo.world np)).
Proof.
  apply (shapes_accept _ 1 1 1 1); repeat split; repeat constructor.
Qed.

(** The episode of [Demo.world_full] runs both steps, the episode of
    [Demo.world_ruin] stops after the first with wealth 0. *)
Example full_episode_buffers :
  option_map (fun lw => (length (episode_wealths (fst lw)),
                         length (reward_memory (agent (snd lw))),
                         length (value_memory (agent (snd lw))),
                         length (action_memory (agent (snd lw)))))
             (rollout 2 Demo.world_full)
  = Some (2, 3, 2, 2).
Proof. vm_compute. reflexivity. Qed.

Example ruin_episode_buffers :
  option_map (fun lw => (length (episode_wealths (fst lw)),
                         curr_wealth (fst lw),
                         length (reward_memory (agent (snd lw))),
                         length (value_memory (agent (snd lw))),
                         length (action_memory (agent (snd lw)))))
             (rollout 2 Demo.world_ruin)
  = Some (1, zero, 3, 2, 1).
Proof. vm_compute. reflexivity. Qed.

(** A whole episode, with optimizers that leave the networks as they
    are: [learn] runs, empties the buffers and records the score. *)
Example full_episode_learns :
  option_map (fun lw => (score (agent (snd lw)),
                         length (reward_memory (agent (snd lw))),
                         length (episode_scores (snd lw))))
             (episode 2 (Demo.no_step _) (Demo.no_step _) Demo.world_full)
  = Some (Some (S754_finite false 8061740205639621 (-53)), 0, 1).
Proof. vm_compute. reflexivity. Qed.

Lemma full_rollout : rollout 2 Demo.world_full = Some Demo.full_end.
Proof. reflexivity. Qed.

Lemma ruin_rollout : rollout 2 Demo.world_ruin = Some Demo.ruin_end.
Proof. reflexivity. Qed.

Lemma ruin_end_ruined : ruined_at 0 (fst Demo.ruin_end).
Proof. split; vm_compute; reflexivity. Qed.

Lemma chosen_action :
  choose_action (dec 75 100) zero Demo.world_full = Some Demo.chosen.
Proof. reflexivity. Qed.

Lemma C2_loss_witness :
  fresh (agent Demo.world_full) /\
  rollout 2 Demo.world_full = Some (fst Demo.full_end, snd Demo.full_end) /\
  learn_sums 2 2 (length (episode_wealths (fst Demo.full_end)))
    (agent (snd Demo.full_end)) /\
  length (action_memory (agent (snd Demo.full_end)))
  = length (episode_wealths (fst Demo.full_end)) /\
  ((curr_wealth (fst Demo.full_end) =? zero)%num = false ->
   length (episode_wealths (fst Demo.full_end)) = 2).
Proof.
  split; [apply demo_fresh|]. split; [exact full_rollout|].
  exact (@C2_loss_of_an_episode b64 Demo.lib 2 (fst Demo.full_end)
           Demo.world_full (snd Demo.full_end) (demo_fresh _) full_rollout).
Defined.

(** C2 as stated fails on the ruined episode: its policy loss is not a
    sum over both steps, since the second step has no
    log-probability. *)
Lemma C2_counterexample :
  rollout 2 Demo.world_ruin = Some (fst Demo.ruin_end, snd Demo.ruin_end) /\
  ~ learn_sums 2 2 2 (agent (snd Demo.ruin_end)).
Proof.
  split; [exact ruin_rollout|].
  intros (G & ds & _ & _ & _ & vl & pl & t & _ & (ts & _ & _ & Hj) & _).
  destruct (Hj 1 ltac:(lia)) as (d & u & _ & Hu & _).
  assert (Hn : nth_error (action_memory (agent (snd Demo.ruin_end))) 1 = None)
    by (apply nth_error_None; vm_compute; lia).
  rewrite Hn in Hu. discriminate Hu.
Qed.

Lemma C3_zero_padding_witness :
  fresh (agent Demo.world_ruin) /\
  rollout 2 Demo.world_ruin = Some (fst Demo.ruin_end, snd Demo.ruin_end) /\
  ruined_at 0 (fst Demo.ruin_end) /\ 0 < 2 - 1 /\
  (forall k, 0 < k -> k < 2 ->
     nth_error (reward_memory (agent (snd Demo.ruin_end))) k = Some zero /\
     nth_error (value_memory (agent (snd Demo.ruin_end))) k = Some (Lit zero) /\
     option_map item (nth_error (value_memory (agent (snd Demo.ruin_end))) k)
     = Some zero) /\
  nth_error (reward_memory (agent (snd Demo.ruin_end))) 2 = Some (util zero) /\
  util zero = zero.
Proof.
  split; [apply demo_fresh|]. split; [exact ruin_rollout|].
  split; [exact ruin_end_ruined|]. split; [lia|].
  exact (@C3_zero_padding_after_ruin Demo.lib 2 0 (fst Demo.ruin_end)
           Demo.world_ruin (snd Demo.ruin_end) (demo_fresh _) ruin_rollout
           ruin_end_ruined ltac:(lia)).
Defined.

Lemma C6_policy_loss_witness :
  fresh (agent Demo.world_ruin) /\
  rollout 2 Demo.world_ruin = Some (fst Demo.ruin_end, snd Demo.ruin_end) /\
  ruined_at 0 (fst Demo.ruin_end) /\ 0 < 2 - 1 /\
  length (action_memory (agent (snd Demo.ruin_end))) = 0 + 1 /\
  exists G ds,
    gains 2 (reward_memory (agent (snd Demo.ruin_end))) = Some G /\
    deltas 2 G (value_memory (agent (snd Demo.ruin_end))) = Some ds /\
    length ds = 2 /\
    sums_range_over (0 + 1) ds (action_memory (agent (snd Demo.ruin_end)))
      (weighted_loss ds (action_memory (agent (snd Demo.ruin_end)))) /\
    loss_backward (weighted_loss ds (value_memory (agent (snd Demo.ruin_end))))
    = loss_backward
        (weighted_loss ds
           (firstn (0 + 1) (value_memory (agent (snd Demo.ruin_end))))).
Proof.
  split; [apply demo_fresh|]. split; [exact ruin_rollout|].
  split; [exact ruin_end_ruined|]. split; [lia|].
  exact (@C6_policy_loss_stops_at_ruin b64 Demo.lib 2 0 (fst Demo.ruin_end)
           Demo.world_ruin (snd Demo.ruin_end) (demo_fresh _) ruin_rollout
           ruin_end_ruined ltac:(lia)).
Defined.

(** C7 as stated fails: a call of [choose_action] on the initial agent
    leaves an agent that differs from it. *)
Lemma C7_counterexample :
  ~ (forall a w',
       choose_action (dec 75 100) zero Demo.world_full = Some (a, w') ->
       agent w' = agent Demo.world_full).
Proof.
  intros H.
  specialize (H (fst Demo.chosen) (snd Demo.chosen) chosen_action).
  apply (f_equal (fun ag => length (action_memory ag))) in H.
  vm_compute in H. discriminate H.
Qed.

Lemma C7_choose_action_witness :
  choose_action (dec 75 100) zero Demo.world_full
  = Some (fst Demo.chosen, snd Demo.chosen) /\
  exists m s,
    policy_forward (policy (agent Demo.world_full))
      [dec 75 100; (T - zero)%num] = Some (m, s) /\
    fst Demo.chosen
    = normal_sample m s (draws (torch_random Demo.world_full)
                               (pos (torch_random Demo.world_full))) /\
    action_memory (agent (snd Demo.chosen))
      = action_memory (agent Demo.world_full)
        ++ [Node (OLogProb (fst Demo.chosen)) (dec 75 100) (T - zero)%num
                 (normal_log_prob m s (fst Demo.chosen))] /\
    mean (agent (snd Demo.chosen))
      = Some (Node OMean (dec 75 100) (T - zero)%num m) /\
    sd (agent (snd Demo.chosen))
      = Some (Node OSd (dec 75 100) (T - zero)%num s) /\
    reward (agent (snd Demo.chosen)) = Some (lam * normal_entropy s)%num /\
    torch_random (snd Demo.chosen) = snd (next (torch_random Demo.world_full)) /\
    policy (agent (snd Demo.chosen)) = policy (agent Demo.world_full) /\
    value (agent (snd Demo.chosen)) = value (agent Demo.world_full) /\
    reward_memory (agent (snd Demo.chosen))
      = reward_memory (agent Demo.world_full) /\
    value_memory (agent (snd Demo.chosen))
      = value_memory (agent Demo.world_full) /\
    mean_memory (agent (snd Demo.chosen)) = mean_memory (agent Demo.world_full) /\
    sd_memory (agent (snd Demo.chosen)) = sd_memory (agent Demo.world_full) /\
    score (agent (snd Demo.chosen)) = score (agent Demo.world_full) /\
    np_random (snd Demo.chosen) = np_random Demo.world_full /\
    episode_scores (snd Demo.chosen) = episode_scores Demo.world_full /\
    episode_values (snd Demo.chosen) = episode_values Demo.world_full.
Proof.
  split; [exact chosen_action|].
  exact (@C7_choose_action_effects b64 Demo.lib (dec 75 100) zero
           (fst Demo.chosen) Demo.world_full (snd Demo.chosen) chosen_action).
Defined.

Lemma C8_buffers_witness :
  fresh (agent Demo.world_ruin) /\
  (forall l w', rollout 2 Demo.world_ruin = Some (l, w') ->
     length (reward_memory (agent w')) = 2 + 1 /\
     length (value_memory (agent w')) = 2 /\
     (forall k, k < 2 -> nth_error (reward_memory (agent w')) (k + 1) <> None) /\
     (forall j, j < 2 -> nth_error (value_memory (agent w')) j <> None) /\
     exists G ds, gains 2 (reward_memory (agent w')) = Some G /\
                  deltas 2 G (value_memory (agent w')) = Some ds) /\
  (0 < 2 -> nets_accept (agent Demo.world_ruin) ->
   exists l w', rollout 2 Demo.world_ruin = Some (l, w')).
Proof.
  split; [apply demo_fresh|].
  exact (@C8_buffers_full_at_learn b64 Demo.lib 2 Demo.world_ruin (demo_fresh _)).
Defined.

Lemma C9_determinism_witness :
  agent Demo.world_full = agent Demo.world_later /\
  agree (2 + 1) (np_random Demo.world_full) (np_random Demo.world_later) /\
  agree 2 (torch_random Demo.world_full) (torch_random Demo.world_later) /\
  trajectory (rollout 2 Demo.world_full) = trajectory (rollout 2 Demo.world_later) /\
  option_map (fun lw => (pos (np_random (snd lw)), pos (torch_random (snd lw))))
             (rollout 2 Demo.world_full)
  = option_map (fun lw => (pos (np_random (snd lw)), pos (torch_random (snd lw))))
               (rollout 2 Demo.world_later).
Proof.
  assert (Hnp : agree (2 + 1) (np_random Demo.world_full)
                      (np_random Demo.world_later)).
  { split; [reflexivity|]. intros k Hk.
    destruct k as [|[|[|k]]]; [reflexivity | reflexivity | reflexivity | lia]. }
  assert (Ht : agree 2 (torch_random Demo.world_full)
                     (torch_random Demo.world_later)).
  { split; [reflexivity|]. intros k Hk.
    destruct k as [|[|k]]; [reflexivity | reflexivity | lia]. }
  split; [reflexivity|]. split; [exact Hnp|]. split; [exact Ht|].
  exact (@C9_rollout_deterministic b64 Demo.lib 2 Demo.world_full
           Demo.world_later eq_refl Hnp Ht).
Defined.

End Concrete.

(** * Further properties of the training script *)

(** ** The trace of a rollout *)

Section Trace.

Context {F : Scalar} {L : Library F}.
Variable N : nat.

Ltac unfold_methods :=
  unfold step, get_value, store_value, choose_action, store_rewards, wealth,
    np_uniform, append_episode_values, store_sds, store_means, get_agent,
    put_agent, of_option, np_draw, torch_draw, next, bind, ret, raise.

(** The padding loop touches the reward and value buffers only. *)
Lemma pad_frame (n : nat) (w : World) :
  exists w', pad n w = Some (tt, w') /\
    reward_memory (agent w') = reward_memory (agent w) ++ repeat zero n /\
    value_memory (agent w') = value_memory (agent w) ++ repeat (Lit zero) n /\
    action_memory (agent w') = action_memory (agent w) /\
    mean_memory (agent w') = mean_memory (agent w) /\
    sd_memory (agent w') = sd_memory (agent w) /\
    policy (agent w') = policy (agent w) /\
    value (agent w') = value (agent w) /\
    np_random w' = np_random w /\
    torch_random w' = torch_random w /\
    episode_scores w' = episode_scores w /\
    episode_values w' = episode_values w.
Proof.
  revert w. induction n as [|n IH]; intros w.
  - exists w. simpl. rewrite !app_nil_r. repeat split; reflexivity.
  - simpl. unfold_methods. simpl.
    match goal with |- context [pad n ?w0] => destruct (IH w0) as (w' & Hp & H) end.
    exists w'. split; [exact Hp|].
    simpl in H. rewrite <- !app_assoc in H. simpl in H. exact H.
Qed.

(** Everything one pass through the loop body does. *)
Lemma step_trace (i : nat) (l l' : Locals) (b : bool) (w w' : World) :
  step N i l w = Some ((l', b), w') ->
  exists v m s,
    value_forward (value (agent w)) [curr_wealth l; time_to_go i] = Some v /\
    policy_forward (policy (agent w)) [curr_wealth l; time_to_go i] = Some (m, s) /\
    let act := normal_sample m s
                 (draws (torch_random w) (pos (torch_random w))) in
    let xc := clamp (curr_wealth l + sigma * act
                       * (rho * dt + np_sqrt dt
                                     * draws (np_random w) (pos (np_random w))))%num in
    curr_wealth l' = xc /\
    new_wealth l' = Some xc /\
    episode_wealths l' = episode_wealths l ++ [curr_wealth l] /\
    episode_actions l' = episode_actions l ++ [act] /\
    b = (xc =? zero)%num /\
    reward_memory (agent w')
      = reward_memory (agent w)
        ++ (lam * normal_entropy s)%num
           :: (if b then repeat zero (N - 1 - i) else []) /\
    value_memory (agent w')
      = value_memory (agent w)
        ++ Node OValue (curr_wealth l) (time_to_go i) v
           :: (if b then repeat (Lit zero) (N - 1 - i) else []) /\
    action_memory (agent w')
      = action_memory (agent w)
        ++ [Node (OLogProb act) (curr_wealth l) (time_to_go i)
                 (normal_log_prob m s act)] /\
    mean_memory (agent w')
      = mean_memory (agent w) ++ (if (i =? 0)%nat then [m] else []) /\
    sd_memory (agent w')
      = sd_memory (agent w) ++ (if (i =? 0)%nat then [s] else []) /\
    episode_values w'
      = episode_values w ++ (if (i =? 0)%nat then [v] else []) /\
    episode_scores w' = episode_scores w /\
    np_random w' = snd (next (np_random w)) /\
    torch_random w' = snd (next (torch_random w)) /\
    policy (agent w') = policy (agent w) /\
    value (agent w') = value (agent w).
Proof.
  unfold time_to_go, clamp. unfold_methods. simpl.
  destruct (value_forward _ _) as [v|] eqn:Hv; [|discriminate].
  simpl.
  destruct (policy_forward _ _) as [[m s]|] eqn:Hp; [|discriminate].
  simpl.
  match goal with
  | |- context [(?c =? zero)%num] => destruct (c =? zero)%num eqn:Hz
  end.
  - destruct (i =? 0)%nat; simpl;
      match goal with
      | |- context [pad ?n ?w0] =>
          destruct (pad_frame n w0)
            as (w1 & Hpad & Hr & Hvm & Ha & Hmm & Hsm & Hpo & Hva & Hnp & Ht
                & Hes & Hev)
      end;
      rewrite Hpad; intros H; injection H as <- <- <-;
      simpl in *; exists v, m, s;
      rewrite Hr, Hvm, Ha, Hmm, Hsm, Hpo, Hva, Hnp, Ht, Hes, Hev,
        <- ?app_assoc, ?app_nil_r; simpl;
      repeat split; try reflexivity; symmetry; exact Hz.
  - destruct (i =? 0)%nat; simpl;
      intros H; injection H as <- <- <-;
      simpl; exists v, m, s; rewrite ?app_nil_r;
      repeat split; try reflexivity; symmetry; exact Hz.
Qed.

Lemma wealth_path_length (l : Locals) :
  length (wealth_path l) = S (length (episode_wealths l)).
Proof. unfold wealth_path. rewrite length_app. simpl. lia. Qed.

(** The loop over the steps [i0 .. i0+n-1] that end at the horizon,
    entered with [i0] steps behind it in a rollout that began in
    [w0]: [k] more steps run, each leaves its record, and each takes
    one draw from either generator. *)
Lemma loop_trace (n i0 : nat) (l l' : Locals) (w w' w0 : World) (P : nat) :
  i0 + n = N ->
  loop N (seq i0 n) l w = Some (l', w') ->
  length (episode_wealths l) = i0 ->
  length (episode_actions l) = i0 ->
  length (reward_memory (agent w)) = i0 ->
  length (value_memory (agent w)) = i0 ->
  length (action_memory (agent w)) = i0 ->
  value (agent w) = value (agent w0) ->
  policy (agent w) = policy (agent w0) ->
  draws (np_random w) = draws (np_random w0) ->
  pos (np_random w) = P + i0 ->
  draws (torch_random w) = draws (torch_random w0) ->
  pos (torch_random w) = pos (torch_random w0) + i0 ->
  exists k,
    k <= n /\ (0 < n -> 0 < k) /\
    length (episode_wealths l') = i0 + k /\
    length (episode_actions l') = i0 + k /\
    (forall j, j <= i0 ->
       nth_error (wealth_path l') j = nth_error (wealth_path l) j) /\
    (forall j, j < i0 ->
       nth_error (episode_actions l') j = nth_error (episode_actions l) j) /\
    (forall j, j < i0 ->
       nth_error (reward_memory (agent w')) j
       = nth_error (reward_memory (agent w)) j) /\
    (forall j, j < i0 ->
       nth_error (value_memory (agent w')) j
       = nth_error (value_memory (agent w)) j) /\
    (forall j, j < i0 ->
       nth_error (action_memory (agent w')) j
       = nth_error (action_memory (agent w)) j) /\
    draws (np_random w') = draws (np_random w0) /\
    pos (np_random w') = P + i0 + k /\
    draws (torch_random w') = draws (torch_random w0) /\
    pos (torch_random w') = pos (torch_random w0) + i0 + k /\
    value (agent w') = value (agent w0) /\
    policy (agent w') = policy (agent w0) /\
    episode_scores w' = episode_scores w /\
    (0 < i0 ->
       mean_memory (agent w') = mean_memory (agent w) /\
       sd_memory (agent w') = sd_memory (agent w) /\
       episode_values w' = episode_values w) /\
    (i0 = 0 -> 0 < n ->
       exists v m s,
         value_forward (value (agent w0)) [curr_wealth l; time_to_go 0] = Some v /\
         policy_forward (policy (agent w0)) [curr_wealth l; time_to_go 0]
         = Some (m, s) /\
         mean_memory (agent w') = mean_memory (agent w) ++ [m] /\
         sd_memory (agent w') = sd_memory (agent w) ++ [s] /\
         episode_values w' = episode_values w ++ [v]) /\
    (forall j x, i0 < j -> j < i0 + k ->
       nth_error (wealth_path l') j = Some x -> (x =? zero)%num = false) /\
    forall j, i0 <= j -> j < i0 + k -> step_record w0 P l' (agent w') j.
Proof.
  revert i0 l w.
  induction n as [|n IH];
    intros i0 l w Hi0 Hloop Hew Hact Hrm Hvm Ham Hval Hpol Hdn Hpn Hdt Hpt.
  - simpl in Hloop. unfold ret in Hloop. injection Hloop as <- <-.
    exists 0. rewrite !Nat.add_0_r.
    repeat split; intros; try reflexivity; try assumption; try lia.
  - simpl in Hloop. unfold bind at 1 in Hloop.
    destruct (step N i0 l w) as [[[l1 b] w1]|] eqn:Hstep; [|discriminate].
    apply step_trace in Hstep.
    destruct Hstep as (v & m & s & Hfv & Hfp & Hcw & Hnw & Hew1 & Hact1 & Hb
                       & Hrm1 & Hvm1 & Ham1 & Hmm1 & Hsm1 & Hev1 & Hes1
                       & Hnp1 & Ht1 & Hpo1 & Hva1).
    rewrite Hval in Hfv. rewrite Hpol in Hfp.
    rewrite Hdn, Hpn, Hdt, Hpt in Hcw, Hb.
    rewrite Hdt, Hpt in Hact1, Ham1.
    (* the record of step [i0], read in the state after it *)
    assert (Hrec1 : forall l2 a2,
      (forall j, j <= S i0 ->
         nth_error (wealth_path l2) j = nth_error (wealth_path l1) j) ->
      (forall j, j < S i0 ->
         nth_error (episode_actions l2) j = nth_error (episode_actions l1) j) ->
      (forall j, j < S i0 ->
         nth_error (reward_memory a2) j = nth_error (reward_memory (agent w1)) j) ->
      (forall j, j < S i0 ->
         nth_error (value_memory a2) j = nth_error (value_memory (agent w1)) j) ->
      (forall j, j < S i0 ->
         nth_error (action_memory a2) j = nth_error (action_memory (agent w1)) j) ->
      step_record w0 P l2 a2 i0).
    { intros l2 a2 Hw2 Ha2 Hr2 Hv2 Hl2.
      exists (curr_wealth l), v, m, s. cbv zeta.
      rewrite Hw2, Hw2, Ha2, Hr2, Hv2, Hl2 by lia.
      unfold wealth_path.
      rewrite Hew1, Hact1, Hrm1, Hvm1, Ham1, Hcw.
      repeat split.
      - rewrite <- app_assoc. rewrite nth_error_app2 by lia.
        rewrite Hew, Nat.sub_diag. reflexivity.
      - exact Hfv.
      - exact Hfp.
      - rewrite nth_error_app2 by lia. rewrite Hact, Nat.sub_diag. reflexivity.
      - rewrite nth_error_app2 by lia. rewrite Hvm, Nat.sub_diag. reflexivity.
      - rewrite nth_error_app2 by lia. rewrite Hrm, Nat.sub_diag. reflexivity.
      - rewrite nth_error_app2 by lia. rewrite Ham, Nat.sub_diag. reflexivity.
      - rewrite nth_error_app2 by (rewrite length_app; simpl; lia).
        rewrite length_app, Hew. simpl.
        replace (i0 + 1 - (i0 + 1)) with 0 by lia. reflexivity. }
    (* what the step keeps of the state before it *)
    assert (Hkeepw : forall j, j <= i0 ->
              nth_error (wealth_path l1) j = nth_error (wealth_path l) j).
    { intros j Hj. unfold wealth_path. rewrite Hew1.
      apply nth_error_app1. rewrite length_app. simpl. lia. }
    assert (Hkeepa : forall j, j < i0 ->
              nth_error (episode_actions l1) j = nth_error (episode_actions l) j)
      by (intros j Hj; rewrite Hact1; apply nth_error_app1; lia).
    assert (Hkeepr : forall j, j < i0 ->
              nth_error (reward_memory (agent w1)) j
              = nth_error (reward_memory (agent w)) j)
      by (intros j Hj; rewrite Hrm1; apply nth_error_app1; lia).
    assert (Hkeepv : forall j, j < i0 ->
              nth_error (value_memory (agent w1)) j
              = nth_error (value_memory (agent w)) j)
      by (intros j Hj; rewrite Hvm1; apply nth_error_app1; lia).
    assert (Hkeepl : forall j, j < i0 ->
              nth_error (action_memory (agent w1)) j
              = nth_error (action_memory (agent w)) j)
      by (intros j Hj; rewrite Ham1; apply nth_error_app1; lia).
    assert (Hdiag0 : i0 = 0 ->
       exists v m s,
         value_forward (value (agent w0)) [curr_wealth l; time_to_go 0] = Some v /\
         policy_forward (policy (agent w0)) [curr_wealth l; time_to_go 0]
         = Some (m, s) /\
         mean_memory (agent w1) = mean_memory (agent w) ++ [m] /\
         sd_memory (agent w1) = sd_memory (agent w) ++ [s] /\
         episode_values w1 = episode_values w ++ [v]).
    { intros ->. exists v, m, s. simpl in Hmm1, Hsm1, Hev1.
      repeat split; assumption. }
    assert (Hdiag1 : 0 < i0 ->
       mean_memory (agent w1) = mean_memory (agent w) /\
       sd_memory (agent w1) = sd_memory (agent w) /\
       episode_values w1 = episode_values w).
    { intros Hpos. destruct i0 as [|i0']; [lia|]. simpl in Hmm1, Hsm1, Hev1.
      rewrite app_nil_r in Hmm1, Hsm1, Hev1. repeat split; assumption. }
    simpl in Hloop. destruct b.
    + unfold ret in Hloop. injection Hloop as <- <-.
      exists 1.
      rewrite Hnp1, Ht1, Hew1, Hact1, !length_app, Hew, Hact. simpl.
      rewrite Hdn, Hdt, Hpn, Hpt, Hva1, Hpo1.
      split; [lia|]. split; [lia|]. split; [reflexivity|].
      split; [reflexivity|].
      split; [exact Hkeepw|].
      split; [intros j Hj; rewrite <- Hact1; apply Hkeepa, Hj|].
      split; [exact Hkeepr|]. split; [exact Hkeepv|]. split; [exact Hkeepl|].
      split; [reflexivity|]. split; [lia|].
      split; [reflexivity|]. split; [lia|].
      split; [exact Hval|]. split; [exact Hpol|]. split; [exact Hes1|].
      split; [exact Hdiag1|]. split; [intros H0 _; exact (Hdiag0 H0)|].
      split; [intros j x Hj1 Hj2; exfalso; lia|].
      intros j Hj1 Hj2. assert (j = i0) by lia. subst j.
      apply Hrec1; intros; reflexivity.
    + apply (IH (S i0) l1 w1) in Hloop; try lia.
      * destruct Hloop as (k & Hk & Hkpos & Hlew & Hlact & Hpw & Hpa & Hpr & Hpv
                           & Hpl & Hdn' & Hpn' & Hdt' & Hpt' & Hval' & Hpol'
                           & Hes' & Hd1' & _ & Hnz' & Hrec').
        exists (S k).
        split; [lia|]. split; [lia|].
        split; [lia|]. split; [lia|].
        split; [intros j Hj; rewrite Hpw by lia; apply Hkeepw, Hj|].
        split; [intros j Hj; rewrite Hpa by lia; apply Hkeepa, Hj|].
        split; [intros j Hj; rewrite Hpr by lia; apply Hkeepr, Hj|].
        split; [intros j Hj; rewrite Hpv by lia; apply Hkeepv, Hj|].
        split; [intros j Hj; rewrite Hpl by lia; apply Hkeepl, Hj|].
        split; [exact Hdn'|]. split; [lia|].
        split; [exact Hdt'|]. split; [lia|].
        split; [exact Hval'|]. split; [exact Hpol'|].
        split; [congruence|].
        destruct (Hd1' ltac:(lia)) as (Hm' & Hs' & Hv').
        split.
        { intros Hpos. destruct (Hdiag1 Hpos) as (Hm1 & Hs1 & Hv1).
          repeat split; congruence. }
        split.
        { intros H0 _. destruct (Hdiag0 H0) as (v0 & m0 & s0 & ? & ? & ? & ? & ?).
          exists v0, m0, s0. repeat split; congruence. }
        split.
        { intros j x Hj1 Hj2 Hx.
          destruct (Nat.eq_dec j (S i0)) as [->|Hne].
          - assert (Hlen1 : length (episode_wealths l1) = S i0)
              by (rewrite Hew1, length_app, Hew; simpl; lia).
            assert (Hlast : nth_error (wealth_path l1) (S i0)
                            = Some (curr_wealth l1)).
            { unfold wealth_path. rewrite nth_error_app2 by lia.
              rewrite Hlen1, Nat.sub_diag. reflexivity. }
            rewrite Hpw, Hlast in Hx by lia.
            injection Hx as <-. rewrite Hcw. symmetry. exact Hb.
          - apply (Hnz' j x); [lia | lia | exact Hx]. }
        intros j Hj1 Hj2.
        destruct (Nat.eq_dec j i0) as [->|Hne].
        -- apply Hrec1; assumption.
        -- apply Hrec'; lia.
      * rewrite Hew1, length_app, Hew. simpl. lia.
      * rewrite Hact1, length_app, Hact. simpl. lia.
      * rewrite Hrm1, length_app, Hrm. simpl. lia.
      * rewrite Hvm1, length_app, Hvm. simpl. lia.
      * rewrite Ham1, length_app, Ham. simpl. lia.
      * congruence.
      * congruence.
      * rewrite Hnp1. simpl. exact Hdn.
      * rewrite Hnp1. simpl. lia.
      * rewrite Ht1. simpl. exact Hdt.
      * rewrite Ht1. simpl. lia.
Qed.

(** A rollout that starts with empty buffers: the initial wealth, the
    record of every step that ran, the draws taken and the
    diagnostics of the initial state. *)
Lemma rollout_trace (l : Locals) (w w' : World) :
  fresh (agent w) ->
  rollout N w = Some (l, w') ->
  exists k,
    0 < k /\ k <= N /\
    length (episode_wealths l) = k /\
    length (episode_actions l) = k /\
    nth_error (wealth_path l) 0
      = Some (dec 0 10 + (dec 15 10 - dec 0 10)
                         * draws (np_random w) (pos (np_random w)))%num /\
    (forall j, j < k ->
       step_record w (S (pos (np_random w))) l (agent w') j) /\
    draws (np_random w') = draws (np_random w) /\
    pos (np_random w') = pos (np_random w) + 1 + k /\
    draws (torch_random w') = draws (torch_random w) /\
    pos (torch_random w') = pos (torch_random w) + k /\
    value (agent w') = value (agent w) /\
    policy (agent w') = policy (agent w) /\
    episode_scores w' = episode_scores w /\
    (forall j x, 0 < j -> j < k ->
       nth_error (wealth_path l) j = Some x -> (x =? zero)%num = false) /\
    exists x0 v m s,
      nth_error (wealth_path l) 0 = Some x0 /\
      value_forward (value (agent w)) [x0; time_to_go 0] = Some v /\
      policy_forward (policy (agent w)) [x0; time_to_go 0] = Some (m, s) /\
      mean_memory (agent w') = mean_memory (agent w) ++ [m] /\
      sd_memory (agent w') = sd_memory (agent w) ++ [s] /\
      episode_values w' = episode_values w ++ [v].
Proof.
  intros (Hr0 & Ha0 & Hv0).
  unfold rollout. unfold bind at 1.
  unfold np_uniform at 1. unfold np_draw, next, bind at 1, ret at 1. simpl.
  unfold bind at 1.
  match goal with
  | |- context [loop N (seq 0 N) ?l0 ?u] =>
      set (l_0 := l0); set (w1 := u);
      destruct (loop N (seq 0 N) l_0 w1) as [[l1 w2]|] eqn:Hloop;
        [|discriminate]
  end.
  assert (HN : N = 0 -> new_wealth l1 = None).
  { intros HN0. rewrite HN0 in Hloop. simpl in Hloop. unfold ret in Hloop.
    injection Hloop as <- <-. reflexivity. }
  apply (loop_trace N 0 l_0 l1 w1 w2 w (S (pos (np_random w)))) in Hloop;
    try reflexivity; try assumption;
    try (unfold w1; simpl; rewrite ?Nat.add_0_r; reflexivity);
    try (unfold w1; simpl; rewrite ?Hr0, ?Hv0, ?Ha0; reflexivity).
  destruct Hloop as (k & Hk & Hkpos & Hlew & Hlact & Hpw & _ & _ & _ & _
                     & Hdn & Hpn & Hdt & Hpt & Hval & Hpol & Hes & _ & Hdiag
                     & Hnz & Hrec).
  unfold of_option, store_rewards, get_agent, put_agent, bind, ret, raise.
  destruct (new_wealth l1) as [nw|] eqn:Hnw; [|discriminate].
  cbv beta. intros H; injection H as <- <-.
  cbn [agent reward_memory action_memory value_memory mean_memory sd_memory
       value policy np_random torch_random episode_scores episode_values].
  assert (HNpos : 0 < N).
  { destruct N; [specialize (HN eq_refl); discriminate | lia]. }
  specialize (Hkpos HNpos).
  destruct (Hdiag eq_refl HNpos) as (v & m & s & Hfv & Hfp & Hmm & Hsm & Hev).
  exists k. simpl in Hlew, Hlact.
  split; [exact Hkpos|]. split; [exact Hk|].
  split; [exact Hlew|]. split; [exact Hlact|].
  split.
  { transitivity (nth_error (wealth_path l_0) 0);
      [apply (Hpw 0); lia | reflexivity]. }
  split.
  { intros j Hj. destruct (Hrec j ltac:(lia) ltac:(simpl; lia))
      as (x & v' & m' & s' & Hx & Hv' & Hm' & Hact & Hvm & Hrm & Ham & Hnx).
    exists x, v', m', s'. cbv zeta.
    cbn [agent reward_memory action_memory value_memory].
    repeat split; try assumption.
    rewrite nth_error_app1; [exact Hrm|].
    apply nth_error_Some. rewrite Hrm. discriminate. }
  split; [exact Hdn|]. split; [rewrite Hpn; lia|].
  split; [exact Hdt|]. split; [rewrite Hpt; lia|].
  split; [exact Hval|]. split; [exact Hpol|]. split; [exact Hes|].
  split; [intros j x Hj1 Hj2; apply Hnz; simpl; lia|].
  exists (curr_wealth l_0), v, m, s.
  split.
  { transitivity (nth_error (wealth_path l_0) 0);
      [apply (Hpw 0); lia | reflexivity]. }
  repeat split; assumption.
Qed.

End Trace.

(** ** Episodes of the training loop *)

Section EpisodeFacts.

Context {F : Scalar} {L : Library F}.
Variable N : nat.
Variable value_step : tensor -> ValueFuncNetwork -> ValueFuncNetwork.
Variable policy_step : tensor -> PolicyNetwork -> PolicyNetwork.

(** What a call of [learn] that does not raise has done. *)
Lemma learn_frame (w w' : World) :
  learn N value_step policy_step w = Some (tt, w') ->
  exists G ds g0 t,
    gains N (reward_memory (agent w)) = Some G /\
    deltas N G (value_memory (agent w)) = Some ds /\
    nth_error G 0 = Some g0 /\
    total_loss ds (agent w) = PyTensor t /\
    score (agent w') = Some g0 /\
    value (agent w') = value_step t (value (agent w)) /\
    policy (agent w') = policy_step t (policy (agent w)) /\
    mean_memory (agent w') = mean_memory (agent w) /\
    sd_memory (agent w') = sd_memory (agent w) /\
    np_random w' = np_random w /\
    torch_random w' = torch_random w /\
    episode_scores w' = episode_scores w /\
    episode_values w' = episode_values w.
Proof.
  unfold learn, get_agent, put_agent, of_option, bind, ret, raise.
  destruct (gains N _) as [G|] eqn:HG; simpl; [|discriminate].
  destruct (deltas N G _) as [ds|] eqn:Hds; simpl; [|discriminate].
  destruct (nth_error G 0) as [g0|] eqn:Hg0.
  2: { destruct G; simpl in *; discriminate. }
  destruct G as [|g G']; [discriminate|]. simpl in Hg0. injection Hg0 as ->.
  simpl.
  destruct (total_loss ds (agent w)) as [|t] eqn:Ht; simpl; [discriminate|].
  destruct (requires_grad t); simpl; [|discriminate].
  intros H; injection H as <-.
  exists (g0 :: G'), ds, g0, t. simpl. repeat split; assumption.
Qed.

(** An episode is a rollout, a call of [learn] and the recording of
    the score. *)
Lemma episode_inv (l : Locals) (w w' : World) :
  episode N value_step policy_step w = Some (l, w') ->
  exists w1 w2 sc,
    rollout N w = Some (l, w1) /\
    learn N value_step policy_step w1 = Some (tt, w2) /\
    score (agent w2) = Some sc /\
    agent w' = agent w2 /\
    np_random w' = np_random w2 /\
    torch_random w' = torch_random w2 /\
    episode_scores w' = episode_scores w2 ++ [sc] /\
    episode_values w' = episode_values w2.
Proof.
  unfold episode. unfold bind at 1.
  destruct (rollout N w) as [[l1 w1]|]; [|discriminate].
  unfold bind at 1.
  destruct (learn N value_step policy_step w1) as [[[] w2]|] eqn:Hlearn;
    [|discriminate].
  unfold get_agent, of_option, append_episode_scores, bind, ret, raise.
  destruct (score (agent w2)) as [sc|] eqn:Hsc; simpl; [|discriminate].
  intros H; injection H as <- <-.
  exists w1, w2, sc. simpl. repeat split; assumption.
Qed.

(** An episode from empty buffers, in terms of its rollout. *)
Lemma episode_trace (l : Locals) (w w' : World) :
  fresh (agent w) ->
  episode N value_step policy_step w = Some (l, w') ->
  exists w1,
    rollout N w = Some (l, w1) /\
    length (reward_memory (agent w1)) = N + 1 /\
    score (agent w') = Some (suffix_sum (reward_memory (agent w1)) 0) /\
    episode_scores w'
    = episode_scores w1 ++ [suffix_sum (reward_memory (agent w1)) 0] /\
    episode_values w' = episode_values w1 /\
    mean_memory (agent w') = mean_memory (agent w1) /\
    sd_memory (agent w') = sd_memory (agent w1) /\
    np_random w' = np_random w1 /\
    torch_random w' = torch_random w1.
Proof.
  intros Hf He.
  destruct (episode_inv l w w' He)
    as (w1 & w2 & sc & Hr & Hl & Hsc & Hag & Hnp & Ht & Hes & Hev).
  destruct (rollout_lengths N l w w1 Hf Hr) as (_ & Hlen & _).
  pose proof (learn_score N value_step policy_step w1 w2 Hlen Hl) as Hscore.
  destruct (learn_frame w1 w2 Hl)
    as (G & ds & g0 & t & _ & _ & _ & _ & _ & _ & _ & Hmm & Hsm & Hnp2 & Ht2
        & Hes2 & Hev2).
  exists w1. split; [exact Hr|]. split; [exact Hlen|].
  rewrite Hag, Hes, Hev, Hnp, Ht, Hes2, Hev2, Hnp2, Ht2, Hmm, Hsm.
  rewrite Hscore in Hsc. injection Hsc as <-.
  repeat split. exact Hscore.
Qed.

(** X1.  In a rollout, whatever its length, the value estimate, the
    reward and the log-probability stored at the index of a step that
    ran are the outputs of the two networks at that step's state
    [(wealth, T - j*dt)]: the value network's estimate, [lam] times the
    entropy of the policy's distribution, and the log-density of the
    sampled action; the environment never enters a per-step reward. *)
Theorem rollout_buffers_hold_network_outputs (l : Locals) (w w' : World) :
  fresh (agent w) ->
  rollout N w = Some (l, w') ->
  forall j x, nth_error (episode_wealths l) j = Some x ->
    exists v m s a,
      value_forward (value (agent w)) [x; time_to_go j] = Some v /\
      policy_forward (policy (agent w)) [x; time_to_go j] = Some (m, s) /\
      nth_error (episode_actions l) j = Some a /\
      nth_error (value_memory (agent w')) j
        = Some (Node OValue x (time_to_go j) v) /\
      nth_error (reward_memory (agent w')) j
        = Some (lam * normal_entropy s)%num /\
      nth_error (action_memory (agent w')) j
        = Some (Node (OLogProb a) x (time_to_go j) (normal_log_prob m s a)).
Proof.
  intros Hf Hr j x Hx.
  destruct (rollout_trace N l w w' Hf Hr)
    as (k & _ & _ & Hlew & _ & _ & Hrec & _).
  assert (Hj : j < k)
    by (rewrite <- Hlew; apply nth_error_Some; rewrite Hx; discriminate).
  destruct (Hrec j Hj) as (x' & v & m & s & Hx' & Hv & Hm & Hact & Hvm & Hrm
                           & Ham & _).
  unfold wealth_path in Hx'. rewrite nth_error_app1, Hx in Hx' by lia.
  injection Hx' as <-.
  eexists v, m, s, _. repeat split; eassumption.
Qed.

(** X2.  The wealths of a rollout follow the transition: the first is
    [0.0 + (1.5 - 0.0) * u] for the first numpy draw [u]; from the
    wealth [x] of step [j] the next one is [wealth(x, a)] clamped at
    0, where the action [a] is the policy's mean plus its scale times
    the [j]-th torch draw, and [wealth] uses the numpy draw that
    follows the ones taken so far. *)
Theorem wealth_path_follows_transition (l : Locals) (w w' : World) :
  fresh (agent w) ->
  rollout N w = Some (l, w') ->
  nth_error (wealth_path l) 0
    = Some (dec 0 10 + (dec 15 10 - dec 0 10)
                       * draws (np_random w) (pos (np_random w)))%num /\
  forall j x, nth_error (episode_wealths l) j = Some x ->
    exists m s,
      policy_forward (policy (agent w)) [x; time_to_go j] = Some (m, s) /\
      let a := normal_sample m s
                 (draws (torch_random w) (pos (torch_random w) + j)) in
      nth_error (episode_actions l) j = Some a /\
      nth_error (wealth_path l) (j + 1)
        = Some (clamp (x + sigma * a
                           * (rho * dt
                              + np_sqrt dt
                                * draws (np_random w)
                                        (pos (np_random w) + 1 + j)))%num).
Proof.
  intros Hf Hr.
  destruct (rollout_trace N l w w' Hf Hr)
    as (k & _ & _ & Hlew & _ & H0 & Hrec & _).
  split; [exact H0|].
  intros j x Hx.
  assert (Hj : j < k)
    by (rewrite <- Hlew; apply nth_error_Some; rewrite Hx; discriminate).
  destruct (Hrec j Hj) as (x' & v & m & s & Hx' & _ & Hm & Hact & _ & _ & _
                           & Hnext).
  unfold wealth_path in Hx'. rewrite nth_error_app1, Hx in Hx' by lia.
  injection Hx' as <-.
  exists m, s. split; [exact Hm|]. cbv zeta. split; [exact Hact|].
  replace (pos (np_random w) + 1 + j) with (S (pos (np_random w)) + j) by lia.
  exact Hnext.
Qed.

(** X3.  An episode that ran [k] steps has taken exactly [k+1] draws
    from numpy's generator (the initial wealth and one per step) and
    [k] from torch's (one per action), at most [N+1] and [N]; padding
    after ruin and [learn] take none. *)
Theorem episode_draw_count (l : Locals) (w w' : World) :
  fresh (agent w) ->
  episode N value_step policy_step w = Some (l, w') ->
  pos (np_random w') = pos (np_random w) + length (episode_wealths l) + 1 /\
  pos (torch_random w') = pos (torch_random w) + length (episode_wealths l) /\
  draws (np_random w') = draws (np_random w) /\
  draws (torch_random w') = draws (torch_random w) /\
  0 < length (episode_wealths l) <= N.
Proof.
  intros Hf He.
  destruct (episode_trace l w w' Hf He)
    as (w1 & Hr & _ & _ & _ & _ & _ & _ & Hnp & Ht).
  destruct (rollout_trace N l w w1 Hf Hr)
    as (k & Hk0 & HkN & Hlew & _ & _ & _ & Hdn & Hpn & Hdt & Hpt & _).
  rewrite Hnp, Ht, Hlew, Hpn, Hpt, Hdn, Hdt.
  repeat split; lia.
Qed.

(** X4.  Every episode, however it ends, adds exactly one entry to
    each of [agent.mean_memory], [agent.sd_memory] and
    [episode_values]: the policy's mean and scale and the value
    estimate at the episode's initial state [(initial wealth, T)],
    computed with the networks as they were before the episode's
    update. *)
Theorem episode_records_initial_state (l : Locals) (w w' : World) :
  fresh (agent w) ->
  episode N value_step policy_step w = Some (l, w') ->
  exists x0 v m s,
    nth_error (episode_wealths l) 0 = Some x0 /\
    value_forward (value (agent w)) [x0; time_to_go 0] = Some v /\
    policy_forward (policy (agent w)) [x0; time_to_go 0] = Some (m, s) /\
    mean_memory (agent w') = mean_memory (agent w) ++ [m] /\
    sd_memory (agent w') = sd_memory (agent w) ++ [s] /\
    episode_values w' = episode_values w ++ [v].
Proof.
  intros Hf He.
  destruct (episode_trace l w w' Hf He)
    as (w1 & Hr & _ & _ & _ & Hev & Hmm & Hsm & _).
  destruct (rollout_trace N l w w1 Hf Hr)
    as (k & Hk0 & _ & Hlew & _ & _ & _ & _ & _ & _ & _ & _ & _ & _ & _
        & x0 & v & m & s & Hx0 & Hv & Hm & Hmm1 & Hsm1 & Hev1).
  exists x0, v, m, s.
  unfold wealth_path in Hx0. rewrite nth_error_app1 in Hx0 by lia.
  rewrite Hev, Hmm, Hsm.
  repeat split; assumption.
Qed.

(** X5.  The score an episode appends to [episode_scores], and leaves
    in [agent.score], is [G[0]]: the sum of the rewards stored at the
    indices [1 .. N] of the rollout's reward buffer, the terminal
    utility included and the entropy reward of step 0 left out. *)
Theorem episode_score_is_first_return (l : Locals) (w w' : World) :
  fresh (agent w) ->
  episode N value_step policy_step w = Some (l, w') ->
  exists w1,
    rollout N w = Some (l, w1) /\
    length (reward_memory (agent w1)) = N + 1 /\
    score (agent w') = Some (suffix_sum (reward_memory (agent w1)) 0) /\
    episode_scores w'
    = episode_scores w ++ [suffix_sum (reward_memory (agent w1)) 0].
Proof.
  intros Hf He.
  destruct (episode_trace l w w' Hf He)
    as (w1 & Hr & Hlen & Hsc & Hes & _).
  destruct (rollout_trace N l w w1 Hf Hr)
    as (_ & _ & _ & _ & _ & _ & _ & _ & _ & _ & _ & _ & _ & Hes1 & _).
  exists w1. rewrite <- Hes1. repeat split; assumption.
Qed.

(** X6.  After [epochs] episodes the four histories that the script
    plots against [range(EPOCHS)] have grown by exactly [epochs]
    entries each, and the episode buffers are empty again. *)
Theorem training_histories_grow_by_epochs (epochs : nat) (w w' : World) :
  fresh (agent w) ->
  training N value_step policy_step epochs w = Some (tt, w') ->
  length (episode_scores w') = length (episode_scores w) + epochs /\
  length (episode_values w') = length (episode_values w) + epochs /\
  length (mean_memory (agent w')) = length (mean_memory (agent w)) + epochs /\
  length (sd_memory (agent w')) = length (sd_memory (agent w)) + epochs /\
  fresh (agent w').
Proof.
  revert w. induction epochs as [|epochs IH]; intros w Hf; simpl.
  - unfold ret. intros H; injection H as <-.
    rewrite !Nat.add_0_r. repeat split; try reflexivity; apply Hf.
  - unfold bind at 1.
    destruct (episode N value_step policy_step w) as [[l w1]|] eqn:He;
      [|discriminate].
    intros Ht.
    pose proof (episode_fresh N value_step policy_step l w w1 He) as Hf1.
    destruct (IH w1 Hf1 Ht) as (Hs & Hv & Hm & Hsd & Hf').
    destruct (episode_trace l w w1 Hf He)
      as (w0 & Hr & _ & _ & Hes & Hev & Hmm & Hsm & _).
    destruct (rollout_trace N l w w0 Hf Hr)
      as (_ & _ & _ & _ & _ & _ & _ & _ & _ & _ & _ & _ & _ & Hes1 & _
          & _ & v & m & s & _ & _ & _ & Hmm1 & Hsm1 & Hev1).
    rewrite Hs, Hv, Hm, Hsd, Hes, Hev, Hmm, Hsm, Hes1, Hev1, Hmm1, Hsm1,
      !length_app.
    simpl. repeat split; try lia; apply Hf'.
Qed.

End EpisodeFacts.

(** ** When [learn] raises *)

Section LearnErrors.

Context {F : Scalar} {L : Library F}.
Variable N : nat.
Variable value_step : tensor -> ValueFuncNetwork -> ValueFuncNetwork.
Variable policy_step : tensor -> PolicyNetwork -> PolicyNetwork.

Lemma accumulate_in_bounds (rm : list num) (ks : list nat) (R R' : num) :
  accumulate rm ks R = Some R' ->
  forall k, In k ks -> k + 1 < length rm.
Proof.
  revert R. induction ks as [|k0 ks IH]; intros R H k Hk.
  - destruct Hk.
  - simpl in H.
    destruct (nth_error rm (k0 + 1)) as [x|] eqn:Hx; [|discriminate].
    destruct Hk as [<-|Hk].
    + apply nth_error_Some. rewrite Hx. discriminate.
    + eapply IH; eassumption.
Qed.

Lemma gains_loop_length (rm : list num) (js : list nat) (G G' : list num) :
  gains_loop N rm js G = Some G' ->
  length G' = length G + length js /\
  forall j, In j js -> exists R, accumulate rm (seq j (N - j)) zero = Some R.
Proof.
  revert G. induction js as [|j0 js IH]; intros G H.
  - simpl in H. injection H as <-. split; [simpl; lia|]. intros j [].
  - simpl in H.
    destruct (accumulate rm (seq j0 (N - j0)) zero) as [R|] eqn:HR;
      [|discriminate].
    destruct (IH _ H) as (Hlen & Hacc).
    rewrite length_app in Hlen. simpl in Hlen.
    split; [simpl; lia|].
    intros j [<-|Hj]; [exists R; exact HR | apply Hacc, Hj].
Qed.

Lemma gains_loop_defined (rm : list num) (js : list nat) (G : list num) :
  N + 1 <= length rm ->
  Forall (fun j => j <= N) js ->
  exists G', gains_loop N rm js G = Some G'.
Proof.
  intros Hlen. revert G.
  induction js as [|j js IH]; intros G Hjs; simpl.
  - eexists. reflexivity.
  - inversion Hjs as [|? ? Hj Hrest]; subst.
    rewrite accumulate_seq by lia. apply IH, Hrest.
Qed.

Lemma deltas_loop_in_bounds (G : list num) (vm : list tensor)
  (js : list nat) (ds ds' : list num) :
  deltas_loop G vm js ds = Some ds' ->
  forall j, In j js -> j < length vm.
Proof.
  revert ds. induction js as [|j0 js IH]; intros ds H j Hj.
  - destruct Hj.
  - simpl in H.
    destruct (nth_error G j0) as [g|]; [|discriminate].
    destruct (nth_error vm j0) as [v|] eqn:Hv; [|discriminate].
    destruct Hj as [<-|Hj].
    + apply nth_error_Some. rewrite Hv. discriminate.
    + eapply IH; eassumption.
Qed.

Lemma weighted_loss_is_tensor (ds : list num) (memory : list tensor) :
  0 < length ds -> 0 < length memory ->
  exists u, weighted_loss ds memory = PyTensor u.
Proof.
  intros Hds Hm. unfold weighted_loss.
  destruct ds as [|d ds']; [simpl in Hds; lia|].
  destruct memory as [|v vm']; [simpl in Hm; lia|].
  simpl. generalize (AddInt 0 (Scale (- d)%num v)).
  induction (combine ds' vm') as [|dt c IH]; intros u; simpl.
  - exists u. reflexivity.
  - apply IH.
Qed.

Lemma loss_requires_grad_py_add (a b : pyval) :
  loss_requires_grad (py_add a b)
  = loss_requires_grad a || loss_requires_grad b.
Proof.
  destruct a, b; simpl; try reflexivity.
  rewrite orb_false_r. reflexivity.
Qed.

(** A loss built by the [zip] loop requires a gradient exactly when
    one of the tensors the loop has reached does. *)
Lemma loss_requires_grad_weighted (ds : list num) (memory : list tensor) :
  loss_requires_grad (weighted_loss ds memory)
  = existsb requires_grad (firstn (length ds) memory).
Proof.
  unfold weighted_loss.
  assert (Hfold : forall c acc,
    loss_requires_grad
      (fold_left
         (fun loss dt => py_add loss (PyTensor (Scale (- fst dt)%num (snd dt))))
         c acc)
    = loss_requires_grad acc
      || existsb (fun dt : num * tensor => requires_grad (snd dt)) c).
  { induction c as [|dt c IH]; intros acc; simpl.
    - rewrite orb_false_r. reflexivity.
    - rewrite IH, loss_requires_grad_py_add, orb_assoc. reflexivity. }
  rewrite Hfold. simpl.
  revert memory. induction ds as [|d ds IH]; intros memory.
  - reflexivity.
  - destruct memory as [|t memory]; [reflexivity|].
    simpl. rewrite IH. reflexivity.
Qed.

Lemma total_loss_requires_grad (ds : list num) (a : Agent) (t : tensor) :
  total_loss ds a = PyTensor t ->
  requires_grad t
  = existsb requires_grad
      (firstn (length ds) (value_memory a) ++ firstn (length ds) (action_memory a)).
Proof.
  intros Ht.
  change (requires_grad t) with (loss_requires_grad (PyTensor t)).
  rewrite <- Ht. unfold total_loss.
  rewrite loss_requires_grad_py_add, !loss_requires_grad_weighted, existsb_app.
  reflexivity.
Qed.

(** [learn] returns exactly when it reaches [backward()] with a loss
    that requires a gradient. *)
Lemma learn_defined_iff_loss (w : World) :
  (exists w', learn N value_step policy_step w = Some (tt, w')) <->
  exists t, learn_loss N (agent w) = Some t /\ requires_grad t = true.
Proof.
  unfold learn, learn_loss, get_agent, put_agent, of_option, bind, ret, raise,
    obind.
  destruct (gains N _) as [G|]; simpl.
  2: { split; [intros (w' & H) | intros (t & H & _)]; discriminate. }
  destruct (deltas N G _) as [ds|]; simpl.
  2: { split; [intros (w' & H) | intros (t & H & _)]; discriminate. }
  destruct G as [|g0 G']; simpl.
  { split; [intros (w' & H) | intros (t & H & _)]; discriminate. }
  destruct (total_loss ds (agent w)) as [|t]; simpl.
  { split; [intros (w' & H) | intros (t & H & _)]; discriminate. }
  destruct (requires_grad t) eqn:Hrg; simpl.
  - split; [intros _; exists t; split; [reflexivity | exact Hrg]|].
    intros _. eexists. reflexivity.
  - split; [intros (w' & H); discriminate|].
    intros (t' & H & Hrg'). injection H as <-. congruence.
Qed.

(** The loss exists exactly when the index reads of [learn] are in
    bounds. *)
Lemma learn_loss_defined_iff (a : Agent) :
  (exists t, learn_loss N a = Some t) <->
  0 < N /\ N + 1 <= length (reward_memory a) /\ N <= length (value_memory a).
Proof.
  split.
  - intros (t & Hl). unfold learn_loss, obind in Hl.
    destruct (gains N (reward_memory a)) as [G|] eqn:HG; [|discriminate].
    destruct (deltas N G (value_memory a)) as [ds|] eqn:Hds; [|discriminate].
    destruct (nth_error G 0) as [g0|] eqn:Hg0; [|discriminate].
    unfold gains in HG. apply gains_loop_length in HG.
    destruct HG as (HlG & Hacc). rewrite length_seq in HlG. simpl in HlG.
    assert (HN : 0 < N).
    { rewrite <- HlG. apply nth_error_Some. rewrite Hg0. discriminate. }
    split; [exact HN|]. split.
    + destruct (Hacc 0) as (R & HR); [apply in_seq; lia|].
      pose proof (accumulate_in_bounds _ _ _ _ HR (N - 1)) as Hb.
      rewrite in_seq in Hb. lia.
    + unfold deltas in Hds.
      pose proof (deltas_loop_in_bounds _ _ _ _ _ Hds (N - 1)) as Hb.
      rewrite in_seq in Hb. lia.
  - intros (HN & Hrm & Hvm).
    destruct (gains_loop_defined (reward_memory a) (seq 0 N) [] Hrm)
      as (G & HG).
    { apply Forall_forall. intros j Hj. apply in_seq in Hj. lia. }
    pose proof (gains_loop_length _ _ _ _ HG) as (HlG & _).
    rewrite length_seq in HlG. simpl in HlG.
    assert (Hds := deltas_map N G (value_memory a) ltac:(lia) Hvm).
    match type of Hds with _ = Some ?d => set (ds := d) in * end.
    assert (Hlds : length ds = N)
      by (unfold ds; rewrite length_map, length_seq; reflexivity).
    destruct (weighted_loss_is_tensor ds (value_memory a))
      as (u & Hu); [lia | lia |].
    unfold learn_loss, obind.
    fold (gains N (reward_memory a)) in HG.
    rewrite HG, Hds.
    destruct G as [|g G']; [simpl in HlG; lia|]. simpl.
    unfold total_loss. rewrite Hu.
    destruct (weighted_loss ds (action_memory a)); simpl; eexists; reflexivity.
Qed.

(** The tensors that the two [zip] loops of [learn] reach. *)
Lemma learn_loss_requires_grad (a : Agent) (t : tensor) :
  learn_loss N a = Some t ->
  requires_grad t
  = existsb requires_grad
      (firstn N (value_memory a) ++ firstn N (action_memory a)).
Proof.
  intros Hl.
  assert (Hb : 0 < N /\ N + 1 <= length (reward_memory a)
               /\ N <= length (value_memory a))
    by (apply learn_loss_defined_iff; exists t; exact Hl).
  destruct Hb as (HN & Hrm & Hvm).
  unfold learn_loss, obind in Hl.
  destruct (gains N (reward_memory a)) as [G|] eqn:HG; [|discriminate].
  destruct (deltas N G (value_memory a)) as [ds|] eqn:Hds; [|discriminate].
  destruct (nth_error G 0) as [g0|]; [|discriminate].
  destruct (total_loss ds a) as [|u] eqn:Hu; [discriminate|].
  injection Hl as ->.
  assert (Hlds : length ds = N).
  { unfold gains in HG. apply gains_loop_length in HG.
    destruct HG as (HlG & _). rewrite length_seq in HlG. simpl in HlG.
    rewrite (deltas_map N G (value_memory a)) in Hds by lia.
    injection Hds as <-. rewrite length_map, length_seq. reflexivity. }
  rewrite (total_loss_requires_grad ds a t Hu), Hlds. reflexivity.
Qed.

(** X8.  [learn] runs to the end exactly when there is at least one
    step ([N >= 1]), [reward_memory] has at least [N+1] entries,
    [value_memory] at least [N], and one of the tensors that the two
    [zip] loops reach, the first [N] of [value_memory] and of
    [action_memory], requires a gradient; otherwise it raises,
    [IndexError] at a read out of bounds or [RuntimeError] in
    [backward()].  So it raises when called on the buffers as
    [__init__] or a previous [learn] left them, and it runs to the end
    after every rollout from empty buffers. *)
Theorem learn_succeeds_iff (w : World) :
  ((exists w', learn N value_step policy_step w = Some (tt, w')) <->
   0 < N /\ N + 1 <= length (reward_memory (agent w)) /\
   N <= length (value_memory (agent w)) /\
   existsb requires_grad
     (firstn N (value_memory (agent w)) ++ firstn N (action_memory (agent w)))
   = true) /\
  (fresh (agent w) -> learn N value_step policy_step w = None) /\
  (forall l w0, fresh (agent w0) -> rollout N w0 = Some (l, w) ->
     exists w', learn N value_step policy_step w = Some (tt, w')).
Proof.
  assert (Hiff :
    (exists w', learn N value_step policy_step w = Some (tt, w')) <->
    0 < N /\ N + 1 <= length (reward_memory (agent w)) /\
    N <= length (value_memory (agent w)) /\
    existsb requires_grad
      (firstn N (value_memory (agent w)) ++ firstn N (action_memory (agent w)))
    = true).
  { rewrite learn_defined_iff_loss. split.
    - intros (t & Hl & Hrg).
      destruct (proj1 (learn_loss_defined_iff (agent w)) (ex_intro _ t Hl))
        as (HN & Hrm & Hvm).
      rewrite (learn_loss_requires_grad _ _ Hl) in Hrg.
      repeat split; assumption.
    - intros (HN & Hrm & Hvm & Hrg).
      destruct (proj2 (learn_loss_defined_iff (agent w))
                  (conj HN (conj Hrm Hvm))) as (t & Hl).
      exists t. split; [exact Hl|].
      rewrite (learn_loss_requires_grad _ _ Hl). exact Hrg. }
  split; [exact Hiff|]. split.
  - intros (Hr & _).
    destruct (learn N value_step policy_step w) as [[[] w']|] eqn:E;
      [|reflexivity].
    exfalso. destruct Hiff as (H1 & _).
    destruct (H1 (ex_intro _ w' eq_refl)) as (_ & H & _).
    rewrite Hr in H. simpl in H. lia.
  - intros l w0 Hf Hr. apply Hiff.
    destruct (rollout_lengths N l w0 w Hf Hr) as (HN & Hlr & Hlv & _).
    split; [exact HN|]. split; [lia|]. split; [lia|].
    destruct (rollout_trace N l w0 w Hf Hr)
      as (k & Hk0 & _ & _ & _ & _ & Hrec & _).
    destruct (Hrec 0 Hk0) as (x & v & m & s & _ & _ & _ & _ & Hv & _).
    destruct (value_memory (agent w)) as [|v0 vm]; [discriminate|].
    simpl in Hv. injection Hv as ->.
    destruct N as [|n]; [lia|]. reflexivity.
Qed.

(** With one step, two rewards, the padding tensor as the only value
    estimate and no log-probability, every read of [learn] is in
    bounds and [backward()] raises. *)
Example learn_raises_without_gradient (w : World) :
  reward_memory (agent w) = [zero; zero] ->
  value_memory (agent w) = [Lit zero] ->
  action_memory (agent w) = [] ->
  learn 1 value_step policy_step w = None.
Proof.
  intros Hr Hv Ha.
  unfold learn, get_agent, of_option, bind, ret, raise, total_loss.
  rewrite Hr, Hv, Ha. reflexivity.
Qed.

End LearnErrors.

(** ** When the forward passes raise *)

Section ForwardErrors.

Context {F : Scalar} {L : Library F}.

Lemma affine_shape (rows : list (list num)) (bs x ys : list num) :
  affine rows bs x = Some ys ->
  length rows = length bs /\ length ys = length bs /\
  Forall (fun row => length row = length x) rows.
Proof.
  revert bs ys. induction rows as [|row rows IH]; intros bs ys H.
  - destruct bs; [|discriminate]. injection H as <-.
    repeat split. constructor.
  - destruct bs as [|b bs]; [discriminate|]. simpl in H.
    unfold dot in H.
    destruct (length row =? length x)%nat eqn:Hrow; [|discriminate].
    destruct (affine rows bs x) as [ys'|] eqn:Hys; [|discriminate].
    injection H as <-.
    destruct (IH bs ys' Hys) as (H1 & H2 & H3).
    apply Nat.eqb_eq in Hrow.
    simpl. repeat split; try lia. constructor; assumption.
Qed.

(** A layer applies to an input exactly when it has as many rows as
    biases and every row has the input's length. *)
Lemma apply_linear_iff (l : Linear) (x : list num) :
  (exists y, apply_linear l x = Some y) <->
  linear_shape (length x) (length (bias l)) l.
Proof.
  split.
  - intros (y & Hy). apply affine_shape in Hy.
    destruct Hy as (H1 & _ & H3). repeat split; assumption.
  - intros Hs.
    destruct (apply_linear_defined _ _ l x Hs eq_refl) as (y & Hy & _).
    exists y. exact Hy.
Qed.

Lemma apply_linear_length (l : Linear) (x y : list num) :
  apply_linear l x = Some y -> length y = length (bias l).
Proof. intros H. apply affine_shape in H. apply H. Qed.

(** X9.  [PolicyNetwork.forward] returns a result exactly when the
    sizes of the three layers chain from the observation on (each
    layer has one bias per row and rows as long as its input) and
    [fc3] has at least two outputs; [ValueFuncNetwork.forward], read
    with [.item()] as the training loop reads it, gives a number
    exactly when its layers chain and [fc3] has one output.  In every
    other case the call raises. *)
Theorem forward_defined_iff_shapes (observation : list num) :
  (forall net : PolicyNetwork,
     (exists ms, policy_forward net observation = Some ms) <->
     linear_shape (length observation) (length (bias (p_fc1 net))) (p_fc1 net) /\
     linear_shape (length (bias (p_fc1 net))) (length (bias (p_fc2 net)))
       (p_fc2 net) /\
     linear_shape (length (bias (p_fc2 net))) (length (bias (p_fc3 net)))
       (p_fc3 net) /\
     2 <= length (bias (p_fc3 net))) /\
  (forall net : ValueFuncNetwork,
     (exists v, value_forward net observation = Some v) <->
     linear_shape (length observation) (length (bias (v_fc1 net))) (v_fc1 net) /\
     linear_shape (length (bias (v_fc1 net))) (length (bias (v_fc2 net)))
       (v_fc2 net) /\
     linear_shape (length (bias (v_fc2 net))) (length (bias (v_fc3 net)))
       (v_fc3 net) /\
     length (bias (v_fc3 net)) = 1).
Proof.
  split; intros net; split.
  - intros (ms & H). unfold policy_forward, obind in H.
    destruct (apply_linear (p_fc1 net) observation) as [h1|] eqn:H1;
      [|discriminate].
    destruct (apply_linear (p_fc2 net) _) as [h2|] eqn:H2; [|discriminate].
    destruct (apply_linear (p_fc3 net) _) as [h3|] eqn:H3; [|discriminate].
    pose proof (apply_linear_length _ _ _ H1) as Hl1.
    pose proof (apply_linear_length _ _ _ H2) as Hl2.
    pose proof (apply_linear_length _ _ _ H3) as Hl3.
    split; [apply apply_linear_iff; eexists; exact H1|].
    split; [rewrite <- Hl1, <- (length_map (leaky_relu (dec 1 10)));
            apply apply_linear_iff; eexists; exact H2|].
    split; [rewrite <- Hl2, <- (length_map (leaky_relu (dec 1 10)));
            apply apply_linear_iff; eexists; exact H3|].
    rewrite <- Hl3. destruct h3 as [|a [|b h3]]; try discriminate. simpl. lia.
  - intros (S1 & S2 & S3 & Hout). unfold policy_forward.
    destruct (apply_linear_defined _ _ _ observation S1 eq_refl)
      as (h1 & -> & Hl1).
    simpl.
    destruct (apply_linear_defined _ _ _ (map (leaky_relu (dec 1 10)) h1) S2)
      as (h2 & -> & Hl2); [rewrite length_map; exact Hl1|].
    simpl.
    destruct (apply_linear_defined _ _ _ (map (leaky_relu (dec 1 10)) h2) S3)
      as (h3 & -> & Hl3); [rewrite length_map; exact Hl2|].
    simpl.
    destruct h3 as [|a [|b h3]]; [simpl in Hl3; lia | simpl in Hl3; lia|].
    eexists. reflexivity.
  - intros (v & H). unfold value_forward, obind in H.
    destruct (apply_linear (v_fc1 net) observation) as [h1|] eqn:H1;
      [|discriminate].
    destruct (apply_linear (v_fc2 net) _) as [h2|] eqn:H2; [|discriminate].
    destruct (apply_linear (v_fc3 net) _) as [h3|] eqn:H3; [|discriminate].
    pose proof (apply_linear_length _ _ _ H1) as Hl1.
    pose proof (apply_linear_length _ _ _ H2) as Hl2.
    pose proof (apply_linear_length _ _ _ H3) as Hl3.
    split; [apply apply_linear_iff; eexists; exact H1|].
    split; [rewrite <- Hl1, <- (length_map (leaky_relu (dec 1 100)));
            apply apply_linear_iff; eexists; exact H2|].
    split; [rewrite <- Hl2, <- (length_map (leaky_relu (dec 1 100)));
            apply apply_linear_iff; eexists; exact H3|].
    rewrite <- Hl3. destruct h3 as [|a [|b h3]]; try discriminate. reflexivity.
  - intros (S1 & S2 & S3 & Hout). unfold value_forward.
    destruct (apply_linear_defined _ _ _ observation S1 eq_refl)
      as (h1 & -> & Hl1).
    simpl.
    destruct (apply_linear_defined _ _ _ (map (leaky_relu (dec 1 100)) h1) S2)
      as (h2 & -> & Hl2); [rewrite length_map; exact Hl1|].
    simpl.
    destruct (apply_linear_defined _ _ _ (map (leaky_relu (dec 1 100)) h2) S3)
      as (h3 & -> & Hl3); [rewrite length_map; exact Hl2|].
    simpl.
    destruct h3 as [|a [|b h3]]; [simpl in Hl3; lia | | simpl in Hl3; lia].
    eexists. reflexivity.
Qed.

End ForwardErrors.

(** ** The sign of the wealth, in binary64 *)

Section Clamped.

Context {F : Scalar} {L : Library F}.
Variable N : nat.

(** Every wealth after the initial one is the clamped outcome of a
    step. *)
Lemma later_wealth_is_clamped (l : Locals) (w w' : World) :
  fresh (agent w) ->
  rollout N w = Some (l, w') ->
  forall j x, 0 < j -> nth_error (wealth_path l) j = Some x ->
    exists y, x = clamp y.
Proof.
  intros Hf Hr j x Hj Hx.
  destruct (rollout_trace N l w w' Hf Hr)
    as (k & Hk0 & HkN & Hlw & _ & _ & Hrec & _).
  assert (Hjk : j - 1 < k).
  { assert (Hlt : j < length (wealth_path l))
      by (apply nth_error_Some; rewrite Hx; discriminate).
    rewrite wealth_path_length, Hlw in Hlt. lia. }
  destruct (Hrec (j - 1) Hjk) as (y & v & m & s & _ & _ & _ & _ & _ & _ & _ & Hnext).
  replace (j - 1 + 1) with j in Hnext by lia.
  rewrite Hx in Hnext. injection Hnext as ->. eexists. reflexivity.
Qed.

End Clamped.

Section WealthSign.

#[local] Existing Instance b64.
Context {L : Library b64}.
Variable N : nat.

Lemma clamp_not_negative (x : num) : (clamp x <? zero)%num = false.
Proof.
  unfold clamp. destruct (x <? zero)%num eqn:H; [reflexivity | exact H].
Qed.

(** X7.  In the program's floats no wealth after the initial one
    compares below 0: every later wealth of a rollout is the clamped
    outcome of a step.  The wealths from which a later step started
    are moreover different from 0, and a rollout that ran fewer than
    [N] steps ended at wealth 0: the loop breaks at ruin and only
    there. *)
Theorem wealth_never_negative (l : Locals) (w w' : World) :
  fresh (agent w) ->
  rollout N w = Some (l, w') ->
  (forall j x, 0 < j -> nth_error (wealth_path l) j = Some x ->
     (x <? zero)%num = false) /\
  (forall j x, 0 < j -> nth_error (episode_wealths l) j = Some x ->
     (x <? zero)%num = false /\ (x =? zero)%num = false) /\
  (length (episode_wealths l) < N -> (curr_wealth l =? zero)%num = true).
Proof.
  intros Hf Hr.
  destruct (rollout_trace N l w w' Hf Hr)
    as (k & Hk0 & HkN & Hlw & _ & _ & Hrec & _ & _ & _ & _ & _ & _ & _
        & Hnz & _).
  assert (Hneg : forall j x, 0 < j -> nth_error (wealth_path l) j = Some x ->
                   (x <? zero)%num = false).
  { intros j x Hj Hx.
    destruct (later_wealth_is_clamped N l w w' Hf Hr j x Hj Hx) as (y & Hy).
    rewrite Hy. apply clamp_not_negative. }
  split; [exact Hneg|]. split.
  - intros j x Hj Hx.
    assert (Hjk : j < k)
      by (rewrite <- Hlw; apply nth_error_Some; rewrite Hx; discriminate).
    assert (Hp : nth_error (wealth_path l) j = Some x)
      by (unfold wealth_path; rewrite nth_error_app1 by lia; exact Hx).
    split; [apply (Hneg j x Hj Hp) | apply (Hnz j x Hj Hjk Hp)].
  - intros Hshort.
    destruct (rollout_lengths N l w w' Hf Hr) as (_ & _ & _ & _ & _ & Hfull).
    destruct (curr_wealth l =? zero)%num; [reflexivity|].
    specialize (Hfull eq_refl). lia.
Qed.

End WealthSign.

(** ** The gradient signal of an episode *)

Section Gradient.

Context {F : Scalar} {L : Library F}.
Variable N : nat.

Lemma loss_backward_py_add (a b : pyval) :
  loss_backward (py_add a b) = loss_backward a ++ loss_backward b.
Proof.
  destruct a, b; simpl; try reflexivity.
  rewrite app_nil_r. reflexivity.
Qed.

(** Attached outputs receive the factor of their term. *)
Lemma backward_of_nodes (ds : list num) (ts : list tensor) :
  (forall t, In t ts -> exists o x tt v, t = Node o x tt v) ->
  flat_map (fun dt => backward (one * - fst dt)%num (snd dt)) (combine ds ts)
  = map (fun dt => (snd dt, (one * - fst dt)%num)) (combine ds ts).
Proof.
  revert ds. induction ts as [|t ts IH]; intros ds Hn.
  - rewrite combine_nil. reflexivity.
  - destruct ds as [|d ds]; [reflexivity|]. simpl.
    destruct (Hn t (or_introl eq_refl)) as (o & x & tt & v & ->). simpl.
    rewrite IH; [reflexivity|]. intros u Hu. apply Hn. right. exact Hu.
Qed.

Lemma nodes_prefix (k : nat) (ts : list tensor) :
  length ts = k ->
  (forall j, j < k -> exists o x tt v, nth_error ts j = Some (Node o x tt v)) ->
  forall t, In t ts -> exists o x tt v, t = Node o x tt v.
Proof.
  intros Hlen Hn t Hin.
  destruct (In_nth_error _ _ Hin) as (j & Hj).
  assert (Hjk : j < k)
    by (rewrite <- Hlen; apply nth_error_Some; rewrite Hj; discriminate).
  destruct (Hn j Hjk) as (o & x & tt & v & Hv).
  rewrite Hj in Hv. injection Hv as ->. exists o, x, tt, v. reflexivity.
Qed.

(** X11.  The gradient signal of an episode.  [backward()] on the
    loss of a rollout of [k] executed steps reaches exactly [2k]
    network outputs: for each step [j < k] the value estimate of its
    state and the log-probability of its action, both with the factor
    [-(G[j] - v_j)], where [G[j]] is the sum of the rewards stored
    after index [j] and [v_j] the value estimate itself.  The padding
    of a ruined episode receives nothing. *)
Theorem episode_gradient (l : Locals) (w w' : World) :
  fresh (agent w) ->
  rollout N w = Some (l, w') ->
  exists t,
    learn_loss N (agent w') = Some t /\
    length (backward one t) = 2 * length (episode_wealths l) /\
    forall j x, nth_error (episode_wealths l) j = Some x ->
      exists v m s a,
        value_forward (value (agent w)) [x; time_to_go j] = Some v /\
        policy_forward (policy (agent w)) [x; time_to_go j] = Some (m, s) /\
        nth_error (episode_actions l) j = Some a /\
        let d := (suffix_sum (reward_memory (agent w')) j - v)%num in
        nth_error (backward one t) j
          = Some (Node OValue x (time_to_go j) v, (one * - d)%num) /\
        nth_error (backward one t) (length (episode_wealths l) + j)
          = Some (Node (OLogProb a) x (time_to_go j) (normal_log_prob m s a),
                  (one * - d)%num).
Proof.
  intros Hf Hr.
  destruct (rollout_trace N l w w' Hf Hr)
    as (k & Hk0 & HkN & Hlw & _ & _ & Hrec & _).
  destruct (rollout_inv N l w w' Hf Hr)
    as (k' & rs & vs & nw & _ & _ & _ & Hlvs & _ & Hvm & Ham & Hlw' & _).
  assert (Hk' : k' = k) by congruence. rewrite Hk' in *. clear Hk' k'.
  destruct (rollout_lengths N l w w' Hf Hr) as (HN & Hlr & Hlv & _).
  destruct (learn_loss_defined N (agent w') HN Hlr Hlv)
    as (G & ds & t & HG & HlG & Hds & Hlds & Hdelta & Hloss & Hlearn).
  rewrite (gains_map N _ Hlr) in HG. injection HG as HG.
  assert (Hvs : forall j, j < k ->
            nth_error vs j = nth_error (value_memory (agent w')) j).
  { intros j Hj. rewrite Hvm, nth_error_app1 by lia. reflexivity. }
  assert (Hback : backward one t
            = map (fun dt => (snd dt, (one * - fst dt)%num)) (combine ds vs)
              ++ map (fun dt => (snd dt, (one * - fst dt)%num))
                     (combine ds (action_memory (agent w')))).
  { change (backward one t) with (loss_backward (PyTensor t)).
    rewrite <- Hloss. unfold total_loss.
    rewrite loss_backward_py_add, !loss_backward_weighted.
    rewrite Hvm at 1. rewrite backward_padding.
    rewrite (backward_of_nodes ds vs), (backward_of_nodes ds (action_memory _));
      [reflexivity| |].
    - apply (nodes_prefix k); [exact Ham|]. intros j Hj.
      destruct (Hrec j Hj) as (x & v & m & s & _ & _ & _ & _ & _ & _ & Ha & _).
      eexists _, _, _, _. exact Ha.
    - apply (nodes_prefix k); [exact Hlvs|]. intros j Hj.
      destruct (Hrec j Hj) as (x & v & m & s & _ & _ & _ & _ & Hv & _).
      rewrite Hvs by exact Hj. eexists _, _, _, _. exact Hv. }
  exists t. split; [exact Hlearn|]. split.
  - rewrite Hback, length_app, !length_map, !length_combine. lia.
  - intros j x Hx.
    assert (Hj : j < k)
      by (rewrite <- Hlw; apply nth_error_Some; rewrite Hx; discriminate).
    destruct (Hrec j Hj)
      as (x' & v & m & s & Hp & Hvf & Hpf & Hact & Hv & _ & Ha & _).
    assert (Hxx : x' = x).
    { unfold wealth_path in Hp. rewrite nth_error_app1 in Hp by lia.
      congruence. }
    rewrite Hxx in *. clear Hxx x'.
    eexists v, m, s, _.
    split; [exact Hvf|]. split; [exact Hpf|]. split; [exact Hact|].
    cbv zeta.
    assert (Hd : nth_error ds j
                 = Some (suffix_sum (reward_memory (agent w')) j - v)%num).
    { destruct (Hdelta j ltac:(lia)) as (g & u & Hg & Hu & Hdj).
      rewrite Hv in Hu. injection Hu as <-.
      rewrite <- HG, nth_error_map, nth_error_seq in Hg.
      destruct (Nat.ltb_spec j N); [|lia].
      injection Hg as <-. exact Hdj. }
    rewrite Hback. split.
    + rewrite nth_error_app1
        by (rewrite length_map, length_combine; lia).
      rewrite nth_error_map.
      rewrite (nth_error_combine_Some _ _ ds vs j _ _ Hd
                 (eq_trans (Hvs j Hj) Hv)).
      reflexivity.
    + rewrite nth_error_app2
        by (rewrite length_map, length_combine; lia).
      rewrite length_map, length_combine.
      replace (length (episode_wealths l) + j - Nat.min (length ds) (length vs))
        with j by lia.
      rewrite nth_error_map.
      rewrite (nth_error_combine_Some _ _ ds _ j _ _ Hd Ha).
      reflexivity.
Qed.

End Gradient.

(** ** Reproducibility of the training loop *)

Section Reproducible.

Context {F : Scalar} {L : Library F}.
Variable N : nat.
Variable value_step : tensor -> ValueFuncNetwork -> ValueFuncNetwork.
Variable policy_step : tensor -> PolicyNetwork -> PolicyNetwork.

Lemma lockstep_append_episode_scores (n m : nat) (x : num) :
  lockstep n m n m (append_episode_scores x).
Proof. intros w1 w2 Hs. simpl. split; [reflexivity | exact Hs]. Qed.

(** A rollout leaves the draws it has not read as they were. *)
Lemma lockstep_rollout_more (n m : nat) :
  lockstep (N + 1 + n) (N + m) n m (rollout N).
Proof.
  unfold rollout.
  replace (N + 1 + n) with (S (length (seq 0 N) + n))
    by (rewrite length_seq; lia).
  replace (N + m) with (length (seq 0 N) + m)
    by (rewrite length_seq; lia).
  eapply lockstep_bind; [apply lockstep_np_uniform|]; intros x.
  eapply lockstep_bind; [apply (lockstep_loop N (seq 0 N) _ n m)|].
  intros l.
  eapply lockstep_bind; [apply lockstep_of_option|]; intros nw.
  eapply lockstep_bind; [apply lockstep_store_rewards|]; intros _.
  apply lockstep_ret.
Qed.

(** [learn] reads and writes the agent only. *)
Lemma lockstep_learn (n m : nat) :
  lockstep n m n m (learn N value_step policy_step).
Proof.
  unfold learn.
  eapply lockstep_bind; [apply lockstep_get_agent|]; intros a.
  eapply lockstep_bind; [apply lockstep_of_option|]; intros G.
  eapply lockstep_bind; [apply lockstep_of_option|]; intros ds.
  eapply lockstep_bind; [apply lockstep_of_option|]; intros g0.
  destruct (total_loss ds a) as [|loss]; [apply lockstep_raise|].
  destruct (requires_grad loss); [apply lockstep_put_agent | apply lockstep_raise].
Qed.

Lemma lockstep_episode (n m : nat) :
  lockstep (N + 1 + n) (N + m) n m (episode N value_step policy_step).
Proof.
  unfold episode.
  eapply lockstep_bind; [apply lockstep_rollout_more|]; intros l.
  eapply lockstep_bind; [apply lockstep_learn|]; intros _.
  eapply lockstep_bind; [apply lockstep_get_agent|]; intros a.
  eapply lockstep_bind; [apply lockstep_of_option|]; intros sc.
  eapply lockstep_bind; [apply lockstep_append_episode_scores|]; intros _.
  apply lockstep_ret.
Qed.

(** The histories after an episode from empty buffers, from those
    before it, the episode's wealths and the agents before and
    after. *)
Lemma episode_histories (l : Locals) (w w' : World) :
  fresh (agent w) ->
  episode N value_step policy_step w = Some (l, w') ->
  exists x0 v sc,
    nth_error (wealth_path l) 0 = Some x0 /\
    value_forward (value (agent w)) [x0; time_to_go 0] = Some v /\
    score (agent w') = Some sc /\
    episode_scores w' = episode_scores w ++ [sc] /\
    episode_values w' = episode_values w ++ [v].
Proof.
  intros Hf He.
  destruct (episode_trace N value_step policy_step l w w' Hf He)
    as (w1 & Hr & _ & Hsc & Hes & Hev & _).
  destruct (rollout_trace N l w w1 Hf Hr)
    as (k & _ & _ & _ & _ & _ & _ & _ & _ & _ & _ & _ & _ & Hes1 & _
        & x0 & v & m & s & Hx0 & Hv & _ & _ & _ & Hev1).
  exists x0, v, (suffix_sum (reward_memory (agent w1)) 0).
  rewrite Hes, Hev, Hes1, Hev1. repeat split; assumption.
Qed.

Lemma episode_same_process (n m : nat) (w1 w2 : World) :
  fresh (agent w1) ->
  same_process (N + 1 + n) (N + m) w1 w2 ->
  match episode N value_step policy_step w1,
        episode N value_step policy_step w2 with
  | Some (l1, w1'), Some (l2, w2') =>
      l1 = l2 /\ same_process n m w1' w2' /\ fresh (agent w1')
  | None, None => True
  | _, _ => False
  end.
Proof.
  intros Hf (Hs & Hes & Hev).
  pose proof (lockstep_episode n m w1 w2 Hs) as H.
  destruct (episode N value_step policy_step w1) as [[l1 w1']|] eqn:E1;
    destruct (episode N value_step policy_step w2) as [[l2 w2']|] eqn:E2;
    try exact H.
  destruct H as (Hl & Hs').
  assert (Hag : agent w1 = agent w2) by apply Hs.
  assert (Hag' : agent w1' = agent w2') by apply Hs'.
  assert (Hf2 : fresh (agent w2)) by (rewrite <- Hag; exact Hf).
  destruct (episode_histories l1 w1 w1' Hf E1)
    as (x1 & v1 & s1 & Hx1 & Hv1 & Hsc1 & Hes1 & Hev1).
  destruct (episode_histories l2 w2 w2' Hf2 E2)
    as (x2 & v2 & s2 & Hx2 & Hv2 & Hsc2 & Hes2 & Hev2).
  rewrite <- Hl, Hx1 in Hx2. injection Hx2 as <-.
  rewrite <- Hag, Hv1 in Hv2. injection Hv2 as <-.
  rewrite <- Hag', Hsc1 in Hsc2. injection Hsc2 as <-.
  split; [exact Hl|]. split.
  - split; [exact Hs'|]. rewrite Hes1, Hes2, Hev1, Hev2, Hes, Hev.
    split; reflexivity.
  - apply (episode_fresh N value_step policy_step l1 w1 w1' E1).
Qed.

(** X12.  Training is reproducible, which is what the seeds are set
    for.  Two runs of [epochs] episodes that start from the same
    agent, the networks and the states of their optimizers included,
    with empty buffers and the same histories, and whose generators
    give the same next [epochs * (N+1)] numpy draws and [epochs * N]
    torch draws, either both stop with an error or end with the same
    agent, the same [episode_scores] and [episode_values], and their
    generators at the same positions.  An optimizer step may depend
    on the loss and on the whole network object, the moments and the
    step count of its Adam optimizer included. *)
Theorem training_reproducible (epochs : nat) (w1 w2 : World) :
  fresh (agent w1) ->
  same_process (epochs * (N + 1)) (epochs * N) w1 w2 ->
  match training N value_step policy_step epochs w1,
        training N value_step policy_step epochs w2 with
  | Some (_, w1'), Some (_, w2') => same_process 0 0 w1' w2'
  | None, None => True
  | _, _ => False
  end.
Proof.
  revert w1 w2. induction epochs as [|epochs IH]; intros w1 w2 Hf Hs.
  - simpl. exact Hs.
  - simpl training. unfold bind.
    replace (S epochs * (N + 1)) with (N + 1 + epochs * (N + 1)) in Hs by lia.
    replace (S epochs * N) with (N + epochs * N) in Hs by lia.
    pose proof (episode_same_process _ _ w1 w2 Hf Hs) as H.
    destruct (episode N value_step policy_step w1) as [[l1 w1']|];
      destruct (episode N value_step policy_step w2) as [[l2 w2']|];
      try contradiction; [|exact I].
    destruct H as (_ & Hs' & Hf').
    apply IH; assumption.
Qed.

End Reproducible.

(** ** The closed-form value function, over the reals *)

Section TrueValue.

#[local] Existing Instance Rs.
#[local] Existing Instance Rlib.

Open Scope R_scope.

Lemma util_real (x : R) : 0 <= x -> util x = sqrt x.
Proof.
  intros Hx. destruct (Req_dec_T x 0) as [->|Hne].
  - rewrite sqrt_0. apply util_of_zero_real.
  - unfold util, py_pow, gamma, dec, zero. cbn.
    unfold RealScalar.eqb.
    destruct (Req_dec_T (5 / 10) 0) as [H|_]; [lra|].
    destruct (Req_dec_T x 0) as [H|_]; [contradiction|].
    cbn. replace (5 / 10) with (/ 2) by lra.
    apply Rpower_sqrt. lra.
Qed.

Lemma beta_real :
  ((gamma * py_pow rho (of_Z 2)) / (of_Z 2 * (of_Z 1 - gamma)))%num = 8 / 25.
Proof.
  rewrite rho_real.
  unfold py_pow, gamma, dec, zero. cbn. unfold RealScalar.eqb.
  destruct (Req_dec_T 2 0) as [H|_]; [lra|].
  destruct (Req_dec_T (8 / 10) 0) as [H|_]; [lra|].
  cbn.
  replace (Rpower (8 / 10) 2) with ((8 / 10) ^ 2).
  - field.
  - symmetry. change 2 with (INR 2). apply Rpower_pow. lra.
Qed.

(** X10.  Over the reals and for a wealth [x >= 0], [util(x)] is the
    square root of [x] and
    [true_value(x, t) = exp((8/25) * (T - t)) * sqrt(x)] with
    [T = 2/52]: the exponent's rate [gamma*rho^2 / (2*(1-gamma))] is
    [8/25].  At [t = T] the value function is the utility, and at
    wealth 0 it is 0 at every time. *)
Theorem true_value_closed_form (x t : R) :
  0 <= x ->
  util x = sqrt x /\
  true_value x t = exp (8 / 25 * (2 / 52 - t)) * sqrt x /\
  true_value x T = util x /\
  true_value 0 t = 0.
Proof.
  intros Hx.
  assert (HT : @T Rs = 2 / 52) by (unfold T, dt; cbn; field).
  assert (Hform : forall y s, 0 <= y ->
            true_value y s = exp (8 / 25 * (2 / 52 - s)) * sqrt y).
  { intros y s Hy. unfold true_value. cbv zeta.
    fold (util y). rewrite (util_real y Hy), beta_real, HT. reflexivity. }
  split; [apply util_real; exact Hx|].
  split; [apply Hform; exact Hx|].
  split.
  - rewrite (Hform x T Hx), HT, (util_real x Hx).
    replace (8 / 25 * (2 / 52 - 2 / 52)) with 0 by lra.
    rewrite exp_0. lra.
  - rewrite (Hform 0 t (Rle_refl 0)), sqrt_0. lra.
Qed.

End TrueValue.

(** ** The terminal reward and the number of steps *)

Section Terminal.

Context {F : Scalar} {L : Library F}.

(** X13.  At the end of every rollout, ruined or not, the last
    reward stored, at index [N], is the utility of the final wealth,
    which is the clamped outcome of the last step that ran:
    [new_wealth] is bound when it is read. *)
Theorem terminal_reward_is_utility (N : nat) (l : Locals) (w w' : World) :
  fresh (agent w) ->
  rollout N w = Some (l, w') ->
  new_wealth l = Some (curr_wealth l) /\
  nth_error (wealth_path l) (length (episode_wealths l)) = Some (curr_wealth l) /\
  nth_error (reward_memory (agent w')) N = Some (util (curr_wealth l)).
Proof.
  intros Hf Hr.
  destruct (rollout_inv N l w w' Hf Hr)
    as (k & rs & vs & nw & Hk0 & HkN & Hlr & _ & Hrm & _ & _ & _ & Hnw & Hcw & _).
  rewrite Hcw. split; [exact Hnw|]. split.
  - unfold wealth_path. rewrite nth_error_app2 by lia.
    rewrite Nat.sub_diag, Hcw. reflexivity.
  - rewrite Hrm, nth_error_app2 by lia.
    rewrite nth_error_app2 by (rewrite repeat_length; lia).
    rewrite repeat_length, Hlr.
    replace (N - k - (N - k)) with 0 by lia. reflexivity.
Qed.

(** X14.  With no time step ([N = 0]) the rollout raises, whatever
    the state of the process: the loop body never binds [new_wealth],
    which the line after the loop reads.  So an episode raises too,
    and so does any training of at least one epoch. *)
Theorem no_step_raises (w : World)
  (value_step : tensor -> ValueFuncNetwork -> ValueFuncNetwork)
  (policy_step : tensor -> PolicyNetwork -> PolicyNetwork) :
  rollout 0 w = None /\
  episode 0 value_step policy_step w = None /\
  forall epochs, training 0 value_step policy_step (S epochs) w = None.
Proof.
  split; [reflexivity|]. split; [reflexivity|].
  intros epochs. reflexivity.
Qed.

End Terminal.

(** X15.  The number of steps [N = math.floor(T/dt)] is 2, in the
    program's floats as over the reals: [T/dt = (2*dt)/dt] is the float
    2 exactly, so rounding costs no step. *)
Theorem horizon_has_two_steps :
  @N_steps b64 = Some 2%nat /\
  @fdiv b64 (@T b64) (@dt b64) = @of_Z b64 2 /\
  @N_steps Rs = Some 2%nat.
Proof.
  split; [vm_compute; reflexivity|]. split; [vm_compute; reflexivity|].
  unfold N_steps, T, dt. cbn. unfold RealScalar.floor. cbn.
  replace (2 * (1 / 52) / (1 / 52))%R with 2%R by field.
  unfold Int_part. rewrite <- (tech_up 2 3); [reflexivity | lra | lra].
Qed.

(** ** The further properties on concrete episodes *)

Section ConcreteRuns.

#[local] Existing Instance b64.
#[local] Existing Instance Demo.lib.

Lemma full_episode :
  episode 2 (Demo.no_step _) (Demo.no_step _) Demo.world_full
  = Some DemoRuns.full_episode_end.
Proof. reflexivity. Qed.

Lemma ruin_episode :
  episode 2 (Demo.no_step _) (Demo.no_step _) Demo.world_ruin
  = Some DemoRuns.ruin_episode_end.
Proof. reflexivity. Qed.

Lemma ruin_training :
  training 2 (Demo.no_step _) (Demo.no_step _) 2 Demo.world_ruin
  = Some (tt, DemoRuns.training_end).
Proof. reflexivity. Qed.

Lemma after_same_process :
  same_process (2 * (2 + 1)) (2 * 2) Demo.world_full DemoRuns.world_after.
Proof.
  split; [|split; reflexivity].
  split; [reflexivity|]. split.
  - split; [reflexivity|]. intros k Hk.
    do 6 (destruct k as [|k]; [reflexivity|]).
    simpl in Hk. lia.
  - split; [reflexivity|]. intros k Hk.
    do 4 (destruct k as [|k]; [reflexivity|]).
    simpl in Hk. lia.
Qed.

(** Two episodes with the optimizers of [DemoRuns], which keep state,
    run to the end, and both steps of either optimizer are counted. *)
Example stateful_training_runs :
  training 2 DemoRuns.value_step DemoRuns.policy_step 2 Demo.world_full
  = Some (tt, DemoRuns.stateful_end) /\
  adam_steps (v_optimizer (value (agent DemoRuns.stateful_end))) = 2 /\
  adam_steps (p_optimizer (policy (agent DemoRuns.stateful_end))) = 2 /\
  length (episode_scores DemoRuns.stateful_end) = 2.
Proof. split; [reflexivity|]. repeat split. Qed.

Lemma rollout_buffers_witness :
  fresh (agent Demo.world_full) /\
  rollout 2 Demo.world_full = Some (fst Demo.full_end, snd Demo.full_end) /\
  forall j x, nth_error (episode_wealths (fst Demo.full_end)) j = Some x ->
    exists v m s a,
      value_forward (value (agent Demo.world_full)) [x; time_to_go j] = Some v /\
      policy_forward (policy (agent Demo.world_full)) [x; time_to_go j]
      = Some (m, s) /\
      nth_error (episode_actions (fst Demo.full_end)) j = Some a /\
      nth_error (value_memory (agent (snd Demo.full_end))) j
        = Some (Node OValue x (time_to_go j) v) /\
      nth_error (reward_memory (agent (snd Demo.full_end))) j
        = Some (lam * normal_entropy s)%num /\
      nth_error (action_memory (agent (snd Demo.full_end))) j
        = Some (Node (OLogProb a) x (time_to_go j) (normal_log_prob m s a)).
Proof.
  split; [apply demo_fresh|]. split; [exact full_rollout|].
  exact (@rollout_buffers_hold_network_outputs b64 Demo.lib 2
           (fst Demo.full_end) Demo.world_full (snd Demo.full_end)
           (demo_fresh _) full_rollout).
Defined.

Lemma wealth_path_witness :
  fresh (agent Demo.world_ruin) /\
  rollout 2 Demo.world_ruin = Some (fst Demo.ruin_end, snd Demo.ruin_end) /\
  nth_error (wealth_path (fst Demo.ruin_end)) 0
    = Some (dec 0 10 + (dec 15 10 - dec 0 10)
                       * draws (np_random Demo.world_ruin)
                               (pos (np_random Demo.world_ruin)))%num /\
  forall j x, nth_error (episode_wealths (fst Demo.ruin_end)) j = Some x ->
    exists m s,
      policy_forward (policy (agent Demo.world_ruin)) [x; time_to_go j]
      = Some (m, s) /\
      let a := normal_sample m s
                 (draws (torch_random Demo.world_ruin)
                        (pos (torch_random Demo.world_ruin) + j)) in
      nth_error (episode_actions (fst Demo.ruin_end)) j = Some a /\
      nth_error (wealth_path (fst Demo.ruin_end)) (j + 1)
        = Some (clamp (x + sigma * a
                           * (rho * dt
                              + np_sqrt dt
                                * draws (np_random Demo.world_ruin)
                                        (pos (np_random Demo.world_ruin) + 1 + j)))%num).
Proof.
  split; [apply demo_fresh|]. split; [exact ruin_rollout|].
  exact (@wealth_path_follows_transition b64 Demo.lib 2
           (fst Demo.ruin_end) Demo.world_ruin (snd Demo.ruin_end)
           (demo_fresh _) ruin_rollout).
Defined.

Lemma draw_count_witness :
  fresh (agent Demo.world_ruin) /\
  episode 2 (Demo.no_step _) (Demo.no_step _) Demo.world_ruin
  = Some (fst DemoRuns.ruin_episode_end, snd DemoRuns.ruin_episode_end) /\
  pos (np_random (snd DemoRuns.ruin_episode_end))
  = pos (np_random Demo.world_ruin)
    + length (episode_wealths (fst DemoRuns.ruin_episode_end)) + 1 /\
  pos (torch_random (snd DemoRuns.ruin_episode_end))
  = pos (torch_random Demo.world_ruin)
    + length (episode_wealths (fst DemoRuns.ruin_episode_end)) /\
  draws (np_random (snd DemoRuns.ruin_episode_end))
  = draws (np_random Demo.world_ruin) /\
  draws (torch_random (snd DemoRuns.ruin_episode_end))
  = draws (torch_random Demo.world_ruin) /\
  0 < length (episode_wealths (fst DemoRuns.ruin_episode_end)) <= 2.
Proof.
  split; [apply demo_fresh|]. split; [exact ruin_episode|].
  exact (@episode_draw_count b64 Demo.lib 2 (Demo.no_step _) (Demo.no_step _)
           (fst DemoRuns.ruin_episode_end) Demo.world_ruin
           (snd DemoRuns.ruin_episode_end) (demo_fresh _) ruin_episode).
Defined.

Lemma episode_initial_state_witness :
  fresh (agent Demo.world_full) /\
  episode 2 (Demo.no_step _) (Demo.no_step _) Demo.world_full
  = Some (fst DemoRuns.full_episode_end, snd DemoRuns.full_episode_end) /\
  exists x0 v m s,
    nth_error (episode_wealths (fst DemoRuns.full_episode_end)) 0 = Some x0 /\
    value_forward (value (agent Demo.world_full)) [x0; time_to_go 0] = Some v /\
    policy_forward (policy (agent Demo.world_full)) [x0; time_to_go 0]
    = Some (m, s) /\
    mean_memory (agent (snd DemoRuns.full_episode_end))
    = mean_memory (agent Demo.world_full) ++ [m] /\
    sd_memory (agent (snd DemoRuns.full_episode_end))
    = sd_memory (agent Demo.world_full) ++ [s] /\
    episode_values (snd DemoRuns.full_episode_end)
    = episode_values Demo.world_full ++ [v].
Proof.
  split; [apply demo_fresh|]. split; [exact full_episode|].
  exact (@episode_records_initial_state b64 Demo.lib 2
           (Demo.no_step _) (Demo.no_step _)
           (fst DemoRuns.full_episode_end) Demo.world_full
           (snd DemoRuns.full_episode_end) (demo_fresh _) full_episode).
Defined.

Lemma episode_score_witness :
  fresh (agent Demo.world_full) /\
  episode 2 (Demo.no_step _) (Demo.no_step _) Demo.world_full
  = Some (fst DemoRuns.full_episode_end, snd DemoRuns.full_episode_end) /\
  exists w1,
    rollout 2 Demo.world_full = Some (fst DemoRuns.full_episode_end, w1) /\
    length (reward_memory (agent w1)) = 2 + 1 /\
    score (agent (snd DemoRuns.full_episode_end))
    = Some (suffix_sum (reward_memory (agent w1)) 0) /\
    episode_scores (snd DemoRuns.full_episode_end)
    = episode_scores Demo.world_full ++ [suffix_sum (reward_memory (agent w1)) 0].
Proof.
  split; [apply demo_fresh|]. split; [exact full_episode|].
  exact (@episode_score_is_first_return b64 Demo.lib 2
           (Demo.no_step _) (Demo.no_step _)
           (fst DemoRuns.full_episode_end) Demo.world_full
           (snd DemoRuns.full_episode_end) (demo_fresh _) full_episode).
Defined.

Lemma training_histories_witness :
  fresh (agent Demo.world_ruin) /\
  training 2 (Demo.no_step _) (Demo.no_step _) 2 Demo.world_ruin
  = Some (tt, DemoRuns.training_end) /\
  length (episode_scores DemoRuns.training_end)
  = length (episode_scores Demo.world_ruin) + 2 /\
  length (episode_values DemoRuns.training_end)
  = length (episode_values Demo.world_ruin) + 2 /\
  length (mean_memory (agent DemoRuns.training_end))
  = length (mean_memory (agent Demo.world_ruin)) + 2 /\
  length (sd_memory (agent DemoRuns.training_end))
  = length (sd_memory (agent Demo.world_ruin)) + 2 /\
  fresh (agent DemoRuns.training_end).
Proof.
  split; [apply demo_fresh|]. split; [exact ruin_training|].
  exact (@training_histories_grow_by_epochs b64 Demo.lib 2
           (Demo.no_step _) (Demo.no_step _) 2 Demo.world_ruin
           DemoRuns.training_end (demo_fresh _) ruin_training).
Defined.

Lemma wealth_sign_witness :
  fresh (agent Demo.world_ruin) /\
  rollout 2 Demo.world_ruin = Some (fst Demo.ruin_end, snd Demo.ruin_end) /\
  (forall j x, 0 < j -> nth_error (wealth_path (fst Demo.ruin_end)) j = Some x ->
     (x <? zero)%num = false) /\
  (forall j x, 0 < j ->
     nth_error (episode_wealths (fst Demo.ruin_end)) j = Some x ->
     (x <? zero)%num = false /\ (x =? zero)%num = false) /\
  (length (episode_wealths (fst Demo.ruin_end)) < 2 ->
   (curr_wealth (fst Demo.ruin_end) =? zero)%num = true).
Proof.
  split; [apply demo_fresh|]. split; [exact ruin_rollout|].
  exact (@wealth_never_negative Demo.lib 2 (fst Demo.ruin_end)
           Demo.world_ruin (snd Demo.ruin_end) (demo_fresh _) ruin_rollout).
Defined.

Lemma gradient_signal_witness :
  fresh (agent Demo.world_ruin) /\
  rollout 2 Demo.world_ruin = Some (fst Demo.ruin_end, snd Demo.ruin_end) /\
  exists t,
    learn_loss 2 (agent (snd Demo.ruin_end)) = Some t /\
    length (backward one t) = 2 * length (episode_wealths (fst Demo.ruin_end)) /\
    forall j x, nth_error (episode_wealths (fst Demo.ruin_end)) j = Some x ->
      exists v m s a,
        value_forward (value (agent Demo.world_ruin)) [x; time_to_go j]
        = Some v /\
        policy_forward (policy (agent Demo.world_ruin)) [x; time_to_go j]
        = Some (m, s) /\
        nth_error (episode_actions (fst Demo.ruin_end)) j = Some a /\
        let d := (suffix_sum (reward_memory (agent (snd Demo.ruin_end))) j
                  - v)%num in
        nth_error (backward one t) j
          = Some (Node OValue x (time_to_go j) v, (one * - d)%num) /\
        nth_error (backward one t)
                  (length (episode_wealths (fst Demo.ruin_end)) + j)
          = Some (Node (OLogProb a) x (time_to_go j) (normal_log_prob m s a),
                  (one * - d)%num).
Proof.
  split; [apply demo_fresh|]. split; [exact ruin_rollout|].
  exact (@episode_gradient b64 Demo.lib 2 (fst Demo.ruin_end)
           Demo.world_ruin (snd Demo.ruin_end) (demo_fresh _) ruin_rollout).
Defined.

Lemma reproducible_witness :
  fresh (agent Demo.world_full) /\
  same_process (2 * (2 + 1)) (2 * 2) Demo.world_full DemoRuns.world_after /\
  match training 2 DemoRuns.value_step DemoRuns.policy_step 2 Demo.world_full,
        training 2 DemoRuns.value_step DemoRuns.policy_step 2
                 DemoRuns.world_after with
  | Some (_, w1'), Some (_, w2') => same_process 0 0 w1' w2'
  | None, None => True
  | _, _ => False
  end.
Proof.
  split; [apply demo_fresh|]. split; [exact after_same_process|].
  exact (@training_reproducible b64 Demo.lib 2
           DemoRuns.value_step DemoRuns.policy_step 2 Demo.world_full
           DemoRuns.world_after (demo_fresh _) after_same_process).
Defined.

Lemma terminal_reward_witness :
  fresh (agent Demo.world_full) /\
  rollout 2 Demo.world_full = Some (fst Demo.full_end, snd Demo.full_end) /\
  new_wealth (fst Demo.full_end) = Some (curr_wealth (fst Demo.full_end)) /\
  nth_error (wealth_path (fst Demo.full_end))
            (length (episode_wealths (fst Demo.full_end)))
  = Some (curr_wealth (fst Demo.full_end)) /\
  nth_error (reward_memory (agent (snd Demo.full_end))) 2
  = Some (util (curr_wealth (fst Demo.full_end))).
Proof.
  split; [apply demo_fresh|]. split; [exact full_rollout|].
  exact (@terminal_reward_is_utility b64 Demo.lib 2 (fst Demo.full_end)
           Demo.world_full (snd Demo.full_end) (demo_fresh _) full_rollout).
Defined.

End ConcreteRuns.

Section ConcreteReal.

#[local] Existing Instance Rs.
#[local] Existing Instance Rlib.

Lemma true_value_witness :
  (0 <= 1)%R /\
  util 1%R = sqrt 1 /\
  true_value 1%R 0%R = (exp (8 / 25 * (2 / 52 - 0)) * sqrt 1)%R /\
  true_value 1%R T = util 1%R /\
  true_value 0%R 0%R = 0%R.
Proof.
  split; [lra|].
  exact (true_value_closed_form 1%R 0%R ltac:(lra)).
Defined.

End ConcreteReal.

(** The floating-point part of C4 with the libraries of [Demo] and
    [Demo32], in the state [(0.75, T - 0)]. *)
Lemma C4_scale_witness :
  (@t_exp b64 Demo.lib (@of_Z b64 (-1000)) = @zero b64 /\
   @t_log b64 Demo.lib (@one b64) = @zero b64 /\
   is_finite (@dec b64 75 100) = true /\
   is_finite (@fsub b64 (@T b64) (@zero b64)) = true /\
   @policy_forward b64 Demo.lib
     (@constant_policy b64 (@of_Z b64 16) (@of_Z b64 (-1000)))
     [@dec b64 75 100; @fsub b64 (@T b64) (@zero b64)]
   = Some (@of_Z b64 16, @zero b64)) /\
  (@t_exp b32 Demo32.lib (@of_Z b32 (-1000)) = @zero b32 /\
   @t_log b32 Demo32.lib (@one b32) = @zero b32 /\
   is_finite (@dec b32 75 100) = true /\
   is_finite (@fsub b32 (@T b32) (@zero b32)) = true /\
   @policy_forward b32 Demo32.lib
     (@constant_policy b32 (@of_Z b32 16) (@of_Z b32 (-1000)))
     [@dec b32 75 100; @fsub b32 (@T b32) (@zero b32)]
   = Some (@of_Z b32 16, @zero b32)).
Proof.
  destruct C4_scale_of_the_policy as (_ & H64 & H32).
  split.
  - split; [exact (proj1 demo_exp_underflows)|].
    split; [exact (proj2 demo_exp_underflows)|].
    split; [reflexivity|]. split; [reflexivity|].
    exact (proj1 (H64 Demo.lib (proj1 demo_exp_underflows)
                    (proj2 demo_exp_underflows)
                    (@dec b64 75 100) (@zero b64) eq_refl eq_refl)).
  - split; [exact (proj1 demo32_exp_underflows)|].
    split; [exact (proj2 demo32_exp_underflows)|].
    split; [reflexivity|]. split; [reflexivity|].
    exact (proj1 (H32 Demo32.lib (proj1 demo32_exp_underflows)
                    (proj2 demo32_exp_underflows)
                    (@dec b32 75 100) (@zero b32) eq_refl eq_refl)).
Defined.
